(** * ADS dashboard: the simulation and control core of [App.tsx]

    The development embeds the state of the [App] component, its event
    handlers ([startManualMove], [stopManualMove], [handleStartOrder],
    [handleCancelOrder]), the two [useEffect] blocks on [activeOrder] and
    the periodic [tickSimulation] callback, together with the cost lines of
    [generatePDF] from [components/CottonOrder.tsx].

    Numbers.  A JavaScript [number] is modelled by an exact rational ([Q]):
    the arithmetic of the tick is the arithmetic of the source with every
    operation taken exactly, so rounding, infinities and NaN are outside the
    model.  The two library functions whose results are not rational,
    [Math.pow] and [Math.sqrt], are parameters of the outflow computation;
    [Math.random()] and [Date.now()] are inputs of the step that calls them. *)

From Stdlib Require Import QArith Qminmax Qabs Qround Lqa ZArith Lia Bool List String.
From Stdlib Require Import DecimalString.
Import ListNotations.

Open Scope Q_scope.

(** ** JavaScript comparisons and [Math] helpers on numbers *)

Module JS.

(** [x < y] *)
Definition lt (x y : Q) : bool :=
  match x ?= y with Lt => true | _ => false end.

(** [x > y] *)
Definition gt (x y : Q) : bool := lt y x.

(** [x >= y] *)
Definition ge (x y : Q) : bool := negb (lt x y).

(** [x === y] on numbers *)
Definition eq (x y : Q) : bool := Qeq_bool x y.

(** [Math.min(x, y)], [Math.max(x, y)], [Math.abs(x)] *)
Definition min (x y : Q) : Q := Qmin x y.
Definition max (x y : Q) : Q := Qmax x y.
Definition abs (x : Q) : Q := Qabs x.

(** [Date.now().toString()]: the decimal numeral of the timestamp *)
Definition toString (n : Z) : string := NilZero.string_of_int (Z.to_int n).

(** Truthiness of [T | null] *)
Definition truthy {A : Type} (x : option A) : bool :=
  match x with Some _ => true | None => false end.

End JS.

(** ** Types ([types.ts]) *)

Inductive GateStatus : Type :=
| OPEN | CLOSED | OPENING | CLOSING
| PARTIALLY_OPEN.   (* the string 'PARTIALLY OPEN' *)

Inductive SystemMode : Type := AUTO | MANUAL.

Inductive AlertLevel : Type := NORMAL | WARNING | CRITICAL.

Inductive OrderStatus : Type := ACTIVE | COMPLETED | CANCELLED.

Inductive Direction : Type := DirOPEN | DirCLOSE.

Record SystemState : Type := mkSystemState {
  timestamp : Z;
  waterLevel : Q;
  downstreamLevel : Q;
  inflowRate : Q;
  outflowRate : Q;
  gateOpening : Q;
  targetGateOpening : Q;
  gateStatus : GateStatus;
  isRaining : bool;
  rainfallIntensity : Q;
  currentPower : Q;
  totalEnergy : Q;
  totalCost : Q
}.

Record SimulationConfig : Type := mkSimulationConfig {
  targetLevel : Q;
  simulationSpeed : Q
}.

Record WateringOrder : Type := mkWateringOrder {
  id : string;
  clientName : string;
  hectares : Q;
  targetVolume : Q;
  deliveredVolume : Q;
  startTime : Z;
  endTime : option Z;
  status : OrderStatus;
  powerConsumed : Q;
  waterCost : Q
}.

(** ** Constants for simulation physics *)

Definition MAX_WATER_LEVEL : Q := 12.0.
Definition CRITICAL_THRESHOLD : Q := 9.5.
Definition WARNING_THRESHOLD : Q := 8.0.
Definition RESERVOIR_AREA : Q := 1000.
Definition GATE_SPEED : Q := 2.0.
Definition MAX_GATE_HEIGHT_CM : Q := 200.

Definition MOTOR_POWER_ACTIVE : Q := 10.0.
Definition MOTOR_POWER_STANDBY : Q := 0.2.
Definition ELEC_RATE_UZS : Q := 1000.

(** ** The state of the [App] component

    One field per [useState] / [useRef] cell that the core reads or writes.
    [holdTimer] is [holdTimerRef]: the pending repeat interval, recorded by
    the direction its callback closes over. *)

Record App : Type := mkApp {
  mode : SystemMode;
  isSimulating : bool;
  config : SimulationConfig;
  systemState : SystemState;
  activeOrder : option WateringOrder;
  lastCompletedOrder : option WateringOrder;
  activeOrderRef : option WateringOrder;
  holdTimer : option Direction
}.

Definition setMode (m : SystemMode) (a : App) : App :=
  mkApp m (isSimulating a) (config a) (systemState a) (activeOrder a)
        (lastCompletedOrder a) (activeOrderRef a) (holdTimer a).

Definition setConfig (c : SimulationConfig) (a : App) : App :=
  mkApp (mode a) (isSimulating a) c (systemState a) (activeOrder a)
        (lastCompletedOrder a) (activeOrderRef a) (holdTimer a).

(** [setSystemState(prev => f prev)] *)
Definition setSystemState (f : SystemState -> SystemState) (a : App) : App :=
  mkApp (mode a) (isSimulating a) (config a) (f (systemState a)) (activeOrder a)
        (lastCompletedOrder a) (activeOrderRef a) (holdTimer a).

(** [setActiveOrder(curr => f curr)] *)
Definition setActiveOrder
    (f : option WateringOrder -> option WateringOrder) (a : App) : App :=
  mkApp (mode a) (isSimulating a) (config a) (systemState a) (f (activeOrder a))
        (lastCompletedOrder a) (activeOrderRef a) (holdTimer a).

Definition setLastCompletedOrder (o : option WateringOrder) (a : App) : App :=
  mkApp (mode a) (isSimulating a) (config a) (systemState a) (activeOrder a)
        o (activeOrderRef a) (holdTimer a).

Definition setActiveOrderRef (o : option WateringOrder) (a : App) : App :=
  mkApp (mode a) (isSimulating a) (config a) (systemState a) (activeOrder a)
        (lastCompletedOrder a) o (holdTimer a).

Definition setHoldTimer (t : option Direction) (a : App) : App :=
  mkApp (mode a) (isSimulating a) (config a) (systemState a) (activeOrder a)
        (lastCompletedOrder a) (activeOrderRef a) t.

(** The initial values of the [useState] and [useRef] cells. *)
Definition initialSystemState (now : Z) : SystemState :=
  {| timestamp := now;
     waterLevel := 5.0;
     downstreamLevel := 0.8;
     inflowRate := 36.0;
     outflowRate := 0.0;
     gateOpening := 0;
     targetGateOpening := 0;
     gateStatus := CLOSED;
     isRaining := false;
     rainfallIntensity := 0;
     currentPower := MOTOR_POWER_STANDBY;
     totalEnergy := 0;
     totalCost := 0 |}.

Definition initialApp (now : Z) : App :=
  {| mode := AUTO;
     isSimulating := true;
     config := {| targetLevel := 5.0; simulationSpeed := 200 |};
     systemState := initialSystemState now;
     activeOrder := None;
     lastCompletedOrder := None;
     activeOrderRef := None;
     holdTimer := None |}.

(** ** Manual control handlers *)

(** The updater of the "initial move" in [startManualMove]. *)
Definition initialMove (direction : Direction) (prev : SystemState) : SystemState :=
  let newTarget := targetGateOpening prev in
  let newTarget :=
    match direction with
    | DirOPEN => JS.min 100 (newTarget + 1)
    | DirCLOSE => JS.max 0 (newTarget - 1)
    end in
  mkSystemState (timestamp prev) (waterLevel prev) (downstreamLevel prev)
    (inflowRate prev) (outflowRate prev) (gateOpening prev) newTarget
    (gateStatus prev) (isRaining prev) (rainfallIntensity prev)
    (currentPower prev) (totalEnergy prev) (totalCost prev).

(** The updater run by the repeat interval ("continuous move"). *)
Definition continuousMove (direction : Direction) (prev : SystemState) : SystemState :=
  let newTarget := targetGateOpening prev in
  let newTarget :=
    match direction with
    | DirOPEN => JS.min 100 (newTarget + 2)
    | DirCLOSE => JS.max 0 (newTarget - 2)
    end in
  mkSystemState (timestamp prev) (waterLevel prev) (downstreamLevel prev)
    (inflowRate prev) (outflowRate prev) (gateOpening prev) newTarget
    (gateStatus prev) (isRaining prev) (rainfallIntensity prev)
    (currentPower prev) (totalEnergy prev) (totalCost prev).

Definition startManualMove (direction : Direction) (a : App) : App :=
  match mode a with
  | AUTO => a
  | MANUAL =>
      (* the old interval, if any, is cleared and replaced by the new one *)
      setHoldTimer (Some direction) (setSystemState (initialMove direction) a)
  end.

Definition stopManualMove (a : App) : App :=
  match holdTimer a with
  | Some _ => setHoldTimer None a
  | None => a
  end.

(** One firing of the interval installed by [startManualMove]. *)
Definition holdTimerFires (a : App) : App :=
  match holdTimer a with
  | Some direction => setSystemState (continuousMove direction) a
  | None => a
  end.

(** ** Order management handlers *)

(** [nowId] and [nowStart] are the results of the two [Date.now()] calls. *)
Definition handleStartOrder
    (clientName : string) (hectares : Q) (nowId nowStart : Z) (a : App) : App :=
  let targetVol := hectares * 1000 in
  setActiveOrder (fun _ => Some
    {| id := JS.toString nowId;
       clientName := clientName;
       hectares := hectares;
       targetVolume := targetVol;
       deliveredVolume := 0;
       startTime := nowStart;
       endTime := None;
       status := ACTIVE;
       powerConsumed := 0;
       waterCost := 0 |}) a.

Definition handleCancelOrder (a : App) : App :=
  setActiveOrder (fun _ => None) a.

(** ** The effects on [activeOrder] *)

Definition OrderStatus_eqb (s t : OrderStatus) : bool :=
  match s, t with
  | ACTIVE, ACTIVE | COMPLETED, COMPLETED | CANCELLED, CANCELLED => true
  | _, _ => false
  end.

(** [activeOrderRef.current = activeOrder] *)
Definition syncActiveOrderRef (a : App) : App :=
  setActiveOrderRef (activeOrder a) a.

(** [{ ...activeOrder, status: 'COMPLETED', endTime: Date.now() }] *)
Definition completedOrder (now : Z) (o : WateringOrder) : WateringOrder :=
  mkWateringOrder (id o) (clientName o) (hectares o) (targetVolume o)
    (deliveredVolume o) (startTime o) (Some now) COMPLETED
    (powerConsumed o) (waterCost o).

(** Order completion check. *)
Definition orderCompletionCheck (now : Z) (a : App) : App :=
  match activeOrder a with
  | Some o =>
      if JS.ge (deliveredVolume o) (targetVolume o)
         && OrderStatus_eqb (status o) ACTIVE
      then
        let completed := completedOrder now o in
        setActiveOrder (fun _ => None)
          (setLastCompletedOrder (Some completed) a)
      else a
  | None => a
  end.

(** Both effects depend on [activeOrder] only and run, in the order of
    their declaration, after a render in which it changed. *)
Definition flushEffects (now : Z) (a : App) : App :=
  orderCompletionCheck now (syncActiveOrderRef a).

(** ** Simulation logic *)

Section Simulation.

(** [Math.pow] and [Math.sqrt] *)
Variable Math_pow : Q -> Q -> Q.
Variable Math_sqrt : Q -> Q.

(** 1. Calculate inflow; [random] is the value of [Math.random()]. *)
Definition currentInflow (prev : SystemState) (random : Q) : Q :=
  let baseInflow := 36.0 in
  let rainEffect := if isRaining prev then rainfallIntensity prev * 0.3 else 0 in
  let noise := (random - 0.5) * 2 in
  JS.max 0 (baseInflow + rainEffect + noise).

(** 2. Control logic; [ref] is [activeOrderRef.current]. *)
Definition nextTargetGate
    (m : SystemMode) (cfg : SimulationConfig)
    (ref : option WateringOrder) (prev : SystemState) : Q :=
  if JS.truthy ref then 100
  else
    match m with
    | AUTO =>
        let error := waterLevel prev - targetLevel cfg in
        if JS.gt error 0.2 then JS.min 100 (gateOpening prev + error * 5)
        else if JS.lt error (- 0.2) then JS.max 0 (gateOpening prev - 2)
        else gateOpening prev
    | MANUAL => targetGateOpening prev
    end.

(** 3. Physics: move the gate towards the target.  The result is the pair
    [(nextGateOpening, isMoving)]. *)
Definition moveGate (prevGateOpening nextTarget : Q) : Q * bool :=
  let nextGateOpening := prevGateOpening in
  if JS.lt (JS.abs (nextGateOpening - nextTarget)) GATE_SPEED then
    (nextTarget, false)
  else if JS.lt nextGateOpening nextTarget then
    (nextGateOpening + GATE_SPEED, true)
  else
    (nextGateOpening - GATE_SPEED, true).

(** Determine status. *)
Definition determineStatus (prevGateOpening nextGateOpening : Q) : GateStatus :=
  if JS.gt nextGateOpening prevGateOpening then OPENING
  else if JS.lt nextGateOpening prevGateOpening then CLOSING
  else if JS.eq nextGateOpening 0 then CLOSED
  else if JS.eq nextGateOpening 100 then OPEN
  else PARTIALLY_OPEN.

(** 4. Power consumption logic. *)
Definition dtSeconds (cfg : SimulationConfig) : Q := simulationSpeed cfg / 1000.
Definition dtHours (cfg : SimulationConfig) : Q := dtSeconds cfg / 3600.

Definition motorPower (isMoving : bool) : Q :=
  if isMoving then MOTOR_POWER_ACTIVE else MOTOR_POWER_STANDBY.

(** 5. Calculate outflow. *)
Definition Cd : Q := 0.6.
Definition b : Q := 3.0.
Definition g : Q := 9.81.
Definition MAX_GATE_HEIGHT_M : Q := MAX_GATE_HEIGHT_CM / 100.

Definition currentGateHeightM (nextGateOpening : Q) : Q :=
  (nextGateOpening / 100) * MAX_GATE_HEIGHT_M.

Definition h2 (prev : SystemState) : Q := waterLevel prev.

Definition h1 (prev : SystemState) (nextGateOpening : Q) : Q :=
  JS.max 0 (waterLevel prev - currentGateHeightM nextGateOpening).

(** The test guarding the evaluation of the orifice formula. *)
Definition outflowGuard (prev : SystemState) (nextGateOpening : Q) : bool :=
  JS.gt (waterLevel prev) 0.01 && JS.gt (currentGateHeightM nextGateOpening) 0.01.

Definition currentOutflow (prev : SystemState) (nextGateOpening : Q) : Q :=
  if outflowGuard prev nextGateOpening then
    let term1 := Math_pow (h2 prev) 1.5 in
    let term2 := Math_pow (h1 prev nextGateOpening) 1.5 in
    (2 / 3) * Cd * b * Math_sqrt (2 * g) * (term1 - term2)
  else 0.

(** 6. Update water level. *)
Definition newLevel (cfg : SimulationConfig) (prev : SystemState)
    (inflow outflow : Q) : Q :=
  let netFlow := inflow - outflow in
  let dH := (netFlow / RESERVOIR_AREA) * dtSeconds cfg in
  JS.min MAX_WATER_LEVEL (JS.max 0 (waterLevel prev + dH)).

(** 7. Calculate downstream level. *)
Definition newDownstream (prev : SystemState) (outflow : Q) : Q :=
  let targetDownstream := 0.5 + (outflow * 0.04) in
  downstreamLevel prev + (targetDownstream - downstreamLevel prev) * 0.1.

(** 8. Update active order progress: the updater given to [setActiveOrder]. *)
Definition orderProgress (volumeIncrement powerIncrement : Q)
    (curr : option WateringOrder) : option WateringOrder :=
  match curr with
  | None => None
  | Some c =>
      Some (mkWateringOrder (id c) (clientName c) (hectares c) (targetVolume c)
              (deliveredVolume c + volumeIncrement) (startTime c) (endTime c)
              (status c) (powerConsumed c + powerIncrement) (waterCost c))
  end.

(** The state returned by the updater that [tickSimulation] gives to
    [setSystemState]. *)
Definition tickState
    (m : SystemMode) (cfg : SimulationConfig) (ref : option WateringOrder)
    (random : Q) (now : Z) (prev : SystemState) : SystemState :=
  let inflow := currentInflow prev random in
  let nextTarget := nextTargetGate m cfg ref prev in
  let '(nextGateOpening, isMoving) := moveGate (gateOpening prev) nextTarget in
  let status := determineStatus (gateOpening prev) nextGateOpening in
  let power := motorPower isMoving in
  let energyConsumed := power * dtHours cfg in
  let newTotalEnergy := totalEnergy prev + energyConsumed in
  let newTotalCost := newTotalEnergy * ELEC_RATE_UZS in
  let outflow := currentOutflow prev nextGateOpening in
  {| timestamp := now;
     waterLevel := newLevel cfg prev inflow outflow;
     downstreamLevel := newDownstream prev outflow;
     inflowRate := inflow;
     outflowRate := outflow;
     gateOpening := nextGateOpening;
     targetGateOpening := nextTarget;
     gateStatus := status;
     isRaining := isRaining prev;
     rainfallIntensity := rainfallIntensity prev;
     currentPower := power;
     totalEnergy := newTotalEnergy;
     totalCost := newTotalCost |}.

(** The increments that step 8 of the tick hands to [orderProgress]. *)
Definition volumeIncrement (cfg : SimulationConfig) (s' : SystemState) : Q :=
  outflowRate s' * dtSeconds cfg.
Definition powerIncrement (cfg : SimulationConfig) (s' : SystemState) : Q :=
  currentPower s' * (dtSeconds cfg / 3600).

(** [tickSimulation]: the system state is replaced by [tickState], and if
    [activeOrderRef.current] is set the order progress is queued on
    [activeOrder]. *)
Definition tickSimulation (random : Q) (now : Z) (a : App) : App :=
  let s' := tickState (mode a) (config a) (activeOrderRef a) random now
                      (systemState a) in
  let a1 :=
    if JS.truthy (activeOrderRef a) then
      setActiveOrder
        (orderProgress (volumeIncrement (config a) s')
                       (powerIncrement (config a) s')) a
    else a in
  setSystemState (fun _ => s') a1.

End Simulation.

(** ** [generatePDF]: the financial summary ([components/CottonOrder.tsx]) *)

Definition WATER_RATE_PER_HA : Q := 1000.
Definition WATER_COST_PER_M3 : Q := 100.

Definition pdfWaterCost (order : WateringOrder) : Q :=
  deliveredVolume order * WATER_COST_PER_M3.
Definition pdfPowerCost (elecRate : Q) (order : WateringOrder) : Q :=
  powerConsumed order * elecRate.
Definition pdfTotalCost (elecRate : Q) (order : WateringOrder) : Q :=
  pdfWaterCost order + pdfPowerCost elecRate order.

(** ** The component as a transition system

    Each event is one callback of the component: the simulation interval,
    the mouse handlers of the two manual buttons and their repeat interval,
    the order handlers of [CottonOrder], the mode toggle, the set-point
    slider, and the flush of the effects on [activeOrder]. *)

Inductive Event : Type :=
| Tick (random : Q) (now : Z)
| MouseDown (direction : Direction)
| MouseUp
| HoldTimer
| StartOrder (clientName : string) (hectares : Q) (nowId nowStart : Z)
| CancelOrder
| ToggleMode
| SetTargetLevel (v : Q)
| Effects (now : Z).

Section Machine.

Variable Math_pow : Q -> Q -> Q.
Variable Math_sqrt : Q -> Q.

Definition step (e : Event) (a : App) : App :=
  match e with
  | Tick random now =>
      if isSimulating a then tickSimulation Math_pow Math_sqrt random now a
      else a
  | MouseDown direction => startManualMove direction a
  | MouseUp => stopManualMove a
  | HoldTimer => holdTimerFires a
  | StartOrder clientName hectares nowId nowStart =>
      handleStartOrder clientName hectares nowId nowStart a
  | CancelOrder => handleCancelOrder a
  | ToggleMode =>
      setMode (match mode a with AUTO => MANUAL | MANUAL => AUTO end) a
  | SetTargetLevel v =>
      setConfig {| targetLevel := v;
                   simulationSpeed := simulationSpeed (config a) |} a
  | Effects now => flushEffects now a
  end.

(** Events are handled one at a time, oldest first. *)
Fixpoint run (es : list Event) (a : App) : App :=
  match es with
  | [] => a
  | e :: es' => run es' (step e a)
  end.

Inductive Reachable : App -> Prop :=
| reach_init : forall now, Reachable (initialApp now)
| reach_step : forall e a, Reachable a -> Reachable (step e a).

(** The orders the component holds. *)
Definition heldOrders (a : App) : list WateringOrder :=
  match activeOrder a with Some o => [o] | None => [] end ++
  match lastCompletedOrder a with Some o => [o] | None => [] end ++
  match activeOrderRef a with Some o => [o] | None => [] end.

(** The number of [ACTIVE] orders among the order slots of the state. *)
Definition countActive (a : App) : nat :=
  List.length
    (List.filter (fun o => OrderStatus_eqb (status o) ACTIVE)
       (match activeOrder a with Some o => [o] | None => [] end ++
        match lastCompletedOrder a with Some o => [o] | None => [] end)).

End Machine.

(** The gate position after [n] ticks with the target held at [target]. *)
Fixpoint chase (n : nat) (gate target : Q) : Q :=
  match n with
  | O => gate
  | S n' => chase n' (fst (moveGate gate target)) target
  end.

(** The bounds of the physically bounded quantities. *)
Definition inBounds (s : SystemState) : Prop :=
  0 <= waterLevel s <= MAX_WATER_LEVEL /\
  0 <= gateOpening s <= 100 /\
  0 <= targetGateOpening s <= 100.

(** The progress updater touches [deliveredVolume] and [powerConsumed] only. *)
Definition sameOrderButProgress (o o' : WateringOrder) : Prop :=
  id o' = id o /\ clientName o' = clientName o /\ hectares o' = hectares o /\
  targetVolume o' = targetVolume o /\ startTime o' = startTime o /\
  status o' = status o /\ endTime o' = endTime o /\ waterCost o' = waterCost o.

(** The invariant of the reachable states: what holds of the tick period,
    the cost, the bounded quantities and the three order slots. *)
Definition orderOk (st : OrderStatus) (slot : option WateringOrder) : Prop :=
  forall o, slot = Some o -> status o = st /\ waterCost o = 0.

Record Inv (a : App) : Prop := mkInv {
  inv_speed : simulationSpeed (config a) = 200;
  inv_cost :
    totalCost (systemState a) == totalEnergy (systemState a) * ELEC_RATE_UZS;
  inv_bounds : inBounds (systemState a);
  inv_active : orderOk ACTIVE (activeOrder a);
  inv_ref : orderOk ACTIVE (activeOrderRef a);
  inv_last : orderOk COMPLETED (lastCompletedOrder a)
}.

(** ** Running the model

    To evaluate a tick on concrete inputs the two [Math] parameters are
    instantiated by rational approximations: Heron's iteration for the
    square root, and [x * sqrt x] for the power 1.5, the only fractional
    exponent the tick uses (other exponents are truncated to integers). *)

Fixpoint heron (n : nat) (x r : Q) : Q :=
  match n with
  | O => r
  | S n' => heron n' x (Qred ((r + x / r) / 2))
  end.

Definition approx_sqrt (x : Q) : Q :=
  if JS.gt x 0 then heron 5 x (if JS.gt x 1 then x else 1) else 0.

Definition approx_pow (x y : Q) : Q :=
  if JS.eq y 1.5 then x * approx_sqrt x else Qpower x (Qfloor y).

(** A session: an order for 50 hectares is started and one tick has run. *)
Definition sessionEvents : list Event :=
  [StartOrder "Javlon Dehqon" 50 1000 1000; Effects 1001;
   Tick 0.5 1200; Effects 1201].

Definition sessionApp : App :=
  run approx_pow approx_sqrt sessionEvents (initialApp 0).

(** A state in AUTO mode, without order, one metre above the set-point. *)
Definition highWater : SystemState :=
  {| timestamp := 0;
     waterLevel := 6.0;
     downstreamLevel := 0.8;
     inflowRate := 36.0;
     outflowRate := 0.0;
     gateOpening := 40;
     targetGateOpening := 40;
     gateStatus := PARTIALLY_OPEN;
     isRaining := false;
     rainfallIntensity := 0;
     currentPower := MOTOR_POWER_STANDBY;
     totalEnergy := 0;
     totalCost := 0 |}.

Definition defaultConfig : SimulationConfig :=
  {| targetLevel := 5.0; simulationSpeed := 200 |}.

(** Events other than a start request. *)
Definition isStartOrder (e : Event) : bool :=
  match e with StartOrder _ _ _ _ => true | _ => false end.

(** The reading of a start request as rejected while an order is ACTIVE:
    the order in the slot is still there afterwards. *)
Definition secondStartRejected (a : App) : Prop :=
  forall name h nowId nowStart o,
    activeOrder a = Some o -> status o = ACTIVE ->
    activeOrder (handleStartOrder name h nowId nowStart a) = Some o.

(** The reading of cancellation as a status change: after it the component
    holds the cancelled order with status CANCELLED. *)
Definition cancelMarksCancelled (a : App) : Prop :=
  forall o,
    activeOrder a = Some o -> status o = ACTIVE ->
    exists o',
      In o' (heldOrders (handleCancelOrder a)) /\
      id o' = id o /\ status o' = CANCELLED.

(** ** Presentation: the alert level ([App.tsx])

    The expression passed as [alertLevel] to [DamVisualizer] and [AIReport],
    and the text of the status badge of the header. *)

Definition alertLevel (waterLevel : Q) : AlertLevel :=
  if JS.ge waterLevel CRITICAL_THRESHOLD then CRITICAL
  else if JS.ge waterLevel WARNING_THRESHOLD then WARNING
  else NORMAL.

Definition badgeText (waterLevel : Q) : string :=
  if JS.ge waterLevel CRITICAL_THRESHOLD then "CRITICAL"
  else if JS.ge waterLevel WARNING_THRESHOLD then "WARNING"
  else "NORMAL".

(** The string value of a member of [enum AlertLevel]. *)
Definition AlertLevel_value (l : AlertLevel) : string :=
  match l with
  | NORMAL => "NORMAL"
  | WARNING => "WARNING"
  | CRITICAL => "CRITICAL"
  end.

(** Severity, to compare alert levels. *)
Definition severity (l : AlertLevel) : nat :=
  match l with NORMAL => 0 | WARNING => 1 | CRITICAL => 2 end.

(** ** Presentation: the geometry of [DamVisualizer] *)

Module DamVisualizer.

Definition MAX_LEVEL_DISPLAY : Q := 12.
Definition MAX_GATE_HEIGHT_CM : Q := 200.

Definition SVG_HEIGHT : Q := 400.
Definition SVG_WIDTH : Q := 800.

Definition UPSTREAM_GROUND_Y : Q := 350.

Definition PIXELS_PER_METER : Q := 22.
Definition DOWNSTREAM_DROP_M : Q := 2.
Definition DOWNSTREAM_GROUND_Y : Q :=
  UPSTREAM_GROUND_Y + (DOWNSTREAM_DROP_M * PIXELS_PER_METER).

Definition DAM_X : Q := 400.
Definition DAM_WIDTH : Q := 80.

(** The y coordinate of the top of the main wall in its path. *)
Definition DAM_TOP_Y : Q := 50.

Definition GATE_HEIGHT_PX : Q := (MAX_GATE_HEIGHT_CM / 100) * PIXELS_PER_METER.

Definition waterHeightPx (waterLevel : Q) : Q :=
  JS.min waterLevel MAX_LEVEL_DISPLAY * PIXELS_PER_METER.
Definition downstreamHeightPx (downstreamLevel : Q) : Q :=
  JS.min downstreamLevel MAX_LEVEL_DISPLAY * PIXELS_PER_METER.
Definition targetHeightPx (targetLevel : Q) : Q :=
  JS.min targetLevel MAX_LEVEL_DISPLAY * PIXELS_PER_METER.

Definition gateTravelPx (gateOpening : Q) : Q :=
  (gateOpening / 100) * GATE_HEIGHT_PX.
Definition currentFlowHeightPx (gateOpening : Q) : Q :=
  (gateOpening / 100) * GATE_HEIGHT_PX.
Definition currentOpeningCm (gateOpening : Q) : Q :=
  (gateOpening / 100) * MAX_GATE_HEIGHT_CM.

(** The y coordinate of the upstream water surface in the water path. *)
Definition waterSurfaceY (waterLevel : Q) : Q :=
  UPSTREAM_GROUND_Y - waterHeightPx waterLevel.

(** The y coordinate of the ruler tick of [m] metres. *)
Definition rulerTickY (m : Q) : Q := UPSTREAM_GROUND_Y - m * PIXELS_PER_METER.

(** The condition under which the outflow stream and its particles are drawn. *)
Definition streamShown (gateOpening waterLevel : Q) : bool :=
  JS.gt gateOpening 0 && JS.gt waterLevel 0.5.

End DamVisualizer.

(** ** Presentation: the figures of [CottonOrder] *)

(** The modal's "Volume Required" and "Est. Water Cost". *)
Definition modalVolumeRequired (hectares : Q) : Q :=
  hectares * WATER_RATE_PER_HA.
Definition modalWaterCost (hectares : Q) : Q :=
  hectares * WATER_RATE_PER_HA * WATER_COST_PER_M3.

(** The width, in percent, of the progress bar of the active order. *)
Definition progressWidth (activeOrder : WateringOrder) : Q :=
  JS.min 100 ((deliveredVolume activeOrder / targetVolume activeOrder) * 100).

(** ** Sequences of manual events *)

(** [n] firings of the repeat interval. *)
Fixpoint holdFor (n : nat) (a : App) : App :=
  match n with
  | O => a
  | S n' => holdFor n' (holdTimerFires a)
  end.

(** The state with another desired gate position. *)
Definition withTarget (t : Q) (s : SystemState) : SystemState :=
  mkSystemState (timestamp s) (waterLevel s) (downstreamLevel s)
    (inflowRate s) (outflowRate s) (gateOpening s) t
    (gateStatus s) (isRaining s) (rainfallIntensity s)
    (currentPower s) (totalEnergy s) (totalCost s).

(** ** Further invariants of the reachable states *)

(** The gate status agrees with the gate position. *)
Definition statusOk (s : SystemState) : Prop :=
  (gateStatus s = CLOSED -> gateOpening s == 0) /\
  (gateStatus s = OPEN -> gateOpening s == 100) /\
  (gateStatus s = PARTIALLY_OPEN ->
     ~ gateOpening s == 0 /\ ~ gateOpening s == 100).

(** An order in the active slot or in the ref. *)
Definition pendingShape (slot : option WateringOrder) : Prop :=
  forall o, slot = Some o ->
    targetVolume o = hectares o * 1000 /\ endTime o = None /\
    0 <= powerConsumed o.

(** The last completed order. *)
Definition completedShape (slot : option WateringOrder) : Prop :=
  forall o, slot = Some o ->
    status o = COMPLETED /\ targetVolume o = hectares o * 1000 /\
    targetVolume o <= deliveredVolume o /\ endTime o <> None /\
    0 <= powerConsumed o.

Record Inv2 (a : App) : Prop := mkInv2 {
  inv2_speed : simulationSpeed (config a) = 200;
  inv2_rain : isRaining (systemState a) = false;
  inv2_status : statusOk (systemState a);
  inv2_active : pendingShape (activeOrder a);
  inv2_ref : pendingShape (activeOrderRef a);
  inv2_last : completedShape (lastCompletedOrder a)
}.

(** What the tick assumes of [Math.pow] and [Math.sqrt]: the power 1.5 does
    not decrease on non-negative numbers and a square root is not negative. *)
Definition powMonotone (Math_pow : Q -> Q -> Q) : Prop :=
  forall x y, 0 <= x -> x <= y -> Math_pow x 1.5 <= Math_pow y 1.5.
Definition sqrtNonneg (Math_sqrt : Q -> Q) : Prop :=
  forall x, 0 <= Math_sqrt x.

(** Flow facts of a state: no negative outflow, a downstream level of at
    least the base level 0.5, and no negative delivered volume. *)
Record FlowInv (a : App) : Prop := mkFlowInv {
  flow_outflow : 0 <= outflowRate (systemState a);
  flow_downstream : 0.5 <= downstreamLevel (systemState a);
  flow_active : forall o, activeOrder a = Some o -> 0 <= deliveredVolume o
}.

(** Monotone stand-ins for the two [Math] parameters: the arithmetic mean
    of 1 and [x], which bounds the square root from above, and [x] times it. *)
Definition coarse_sqrt (x : Q) : Q := if JS.gt x 0 then (1 + x) / 2 else 0.
Definition coarse_pow (x y : Q) : Q := x * coarse_sqrt x.

(** * Properties *)

(** ** Comparisons *)

Lemma lt_true (x y : Q) : JS.lt x y = true <-> x < y.
Proof.
  unfold JS.lt. rewrite Qlt_alt. destruct (x ?= y); split; congruence.
Qed.

Lemma lt_false (x y : Q) : JS.lt x y = false <-> y <= x.
Proof.
  rewrite <- not_true_iff_false, lt_true. split; [apply Qnot_lt_le | apply Qle_not_lt].
Qed.

Lemma gt_true (x y : Q) : JS.gt x y = true <-> y < x.
Proof. apply lt_true. Qed.

Lemma gt_false (x y : Q) : JS.gt x y = false <-> x <= y.
Proof. apply lt_false. Qed.

Lemma ge_true (x y : Q) : JS.ge x y = true <-> y <= x.
Proof. unfold JS.ge. rewrite negb_true_iff. apply lt_false. Qed.

Lemma ge_false (x y : Q) : JS.ge x y = false <-> x < y.
Proof. unfold JS.ge. rewrite negb_false_iff. apply lt_true. Qed.

Lemma eq_true (x y : Q) : JS.eq x y = true <-> x == y.
Proof. apply Qeq_bool_iff. Qed.

Lemma min_cases (x y : Q) :
  (x <= y /\ JS.min x y == x) \/ (y <= x /\ JS.min x y == y).
Proof.
  unfold JS.min. destruct (Q.min_spec x y) as [[H E] | [H E]]; [left | right];
    split; auto; lra.
Qed.

Lemma max_cases (x y : Q) :
  (x <= y /\ JS.max x y == y) \/ (y <= x /\ JS.max x y == x).
Proof.
  unfold JS.max. destruct (Q.max_spec x y) as [[H E] | [H E]]; [left | right];
    split; auto; lra.
Qed.

Lemma abs_lt (x y : Q) : JS.abs x < y <-> - y < x /\ x < y.
Proof. apply Qabs_Qlt_condition. Qed.

Lemma abs_le (x y : Q) : JS.abs x <= y <-> - y <= x /\ x <= y.
Proof. apply Qabs_Qle_condition. Qed.

(** Turn the boolean tests of the source into order facts. *)
Ltac js_test t :=
  let E := fresh "E" in
  destruct t eqn:E;
  [ first [ apply lt_true in E | apply gt_true in E | apply ge_true in E
          | apply eq_true in E ]
  | first [ apply lt_false in E | apply gt_false in E | apply ge_false in E
          | idtac ] ].

(** ** The fields of the state returned by a tick *)

Section TickFields.

Variable Math_pow : Q -> Q -> Q.
Variable Math_sqrt : Q -> Q.
Variables (m : SystemMode) (cfg : SimulationConfig) (ref : option WateringOrder).
Variables (random : Q) (now : Z) (prev : SystemState).

Let s' := tickState Math_pow Math_sqrt m cfg ref random now prev.

Lemma tick_targetGateOpening :
  targetGateOpening s' = nextTargetGate m cfg ref prev.
Proof.
  subst s'. unfold tickState.
  destruct (moveGate (gateOpening prev) (nextTargetGate m cfg ref prev)).
  reflexivity.
Qed.

Lemma tick_gateOpening :
  gateOpening s' = fst (moveGate (gateOpening prev) (targetGateOpening s')).
Proof.
  rewrite tick_targetGateOpening. subst s'. unfold tickState.
  destruct (moveGate (gateOpening prev) (nextTargetGate m cfg ref prev)).
  reflexivity.
Qed.

Lemma tick_gateStatus :
  gateStatus s' = determineStatus (gateOpening prev) (gateOpening s').
Proof.
  subst s'. unfold tickState.
  destruct (moveGate (gateOpening prev) (nextTargetGate m cfg ref prev)).
  reflexivity.
Qed.

Lemma tick_currentPower :
  currentPower s' =
  motorPower (snd (moveGate (gateOpening prev) (targetGateOpening s'))).
Proof.
  rewrite tick_targetGateOpening. subst s'. unfold tickState.
  destruct (moveGate (gateOpening prev) (nextTargetGate m cfg ref prev)).
  reflexivity.
Qed.


Lemma tick_totalCost : totalCost s' = totalEnergy s' * ELEC_RATE_UZS.
Proof.
  subst s'. unfold tickState.
  destruct (moveGate (gateOpening prev) (nextTargetGate m cfg ref prev)).
  reflexivity.
Qed.

Lemma tick_outflowRate :
  outflowRate s' = currentOutflow Math_pow Math_sqrt prev (gateOpening s').
Proof.
  subst s'. unfold tickState.
  destruct (moveGate (gateOpening prev) (nextTargetGate m cfg ref prev)).
  reflexivity.
Qed.

Lemma tick_waterLevel :
  waterLevel s' = newLevel cfg prev (inflowRate s') (outflowRate s').
Proof.
  subst s'. unfold tickState.
  destruct (moveGate (gateOpening prev) (nextTargetGate m cfg ref prev)).
  reflexivity.
Qed.

End TickFields.

(** ** Control law *)

Lemma nextTargetGate_bounds m cfg ref prev :
  0 <= gateOpening prev <= 100 ->
  0 <= targetGateOpening prev <= 100 ->
  0 <= nextTargetGate m cfg ref prev <= 100.
Proof.
  intros Hg Ht. unfold nextTargetGate.
  destruct ref; simpl; [lra |].
  destruct m; [| exact Ht].
  js_test (JS.gt (waterLevel prev - targetLevel cfg) 0.2).
  - destruct (min_cases 100 (gateOpening prev + (waterLevel prev - targetLevel cfg) * 5))
      as [[H1 H2] | [H1 H2]]; rewrite H2; lra.
  - js_test (JS.lt (waterLevel prev - targetLevel cfg) (- 0.2)).
    + destruct (max_cases 0 (gateOpening prev - 2)) as [[H1 H2] | [H1 H2]];
        rewrite H2; lra.
    + exact Hg.
Qed.

(** C3. The control law picks the next target by priority: an active order
    forces 100 whatever the mode; otherwise AUTO compares
    [error = waterLevel - targetLevel] with the dead-band of 0.2 (open by
    [error * 5] capped at 100, close by 2 floored at 0, or hold the current
    opening); otherwise MANUAL keeps the target it was given.  The target
    stored by the tick is that value. *)
Theorem control_law_priority :
  forall (Math_pow : Q -> Q -> Q) (Math_sqrt : Q -> Q)
         (m : SystemMode) (cfg : SimulationConfig) (ref : option WateringOrder)
         (random : Q) (now : Z) (prev : SystemState),
    let error := waterLevel prev - targetLevel cfg in
    let target :=
      targetGateOpening (tickState Math_pow Math_sqrt m cfg ref random now prev) in
    (ref <> None -> target = 100) /\
    (ref = None -> m = AUTO -> 0.2 < error ->
       target = JS.min 100 (gateOpening prev + error * 5)) /\
    (ref = None -> m = AUTO -> error < - 0.2 ->
       target = JS.max 0 (gateOpening prev - 2)) /\
    (ref = None -> m = AUTO -> - 0.2 <= error <= 0.2 ->
       target = gateOpening prev) /\
    (ref = None -> m = MANUAL -> target = targetGateOpening prev).
Proof.
  intros. subst target. rewrite tick_targetGateOpening. unfold nextTargetGate.
  fold error. repeat split.
  - destruct ref; [reflexivity | congruence].
  - intros -> -> H. simpl. apply gt_true in H. unfold JS.gt in *. now rewrite H.
  - intros -> -> H. simpl.
    assert (G : JS.gt error 0.2 = false) by (apply gt_false; lra).
    apply lt_true in H. now rewrite G, H.
  - intros -> -> [H1 H2]. simpl.
    assert (G : JS.gt error 0.2 = false) by (apply gt_false; lra).
    assert (L : JS.lt error (- 0.2) = false) by (apply lt_false; lra).
    now rewrite G, L.
  - intros -> ->. reflexivity.
Qed.

(** ** Gate kinematics *)

Lemma moveGate_snap gate target :
  JS.abs (gate - target) < GATE_SPEED -> moveGate gate target = (target, false).
Proof.
  intros H. unfold moveGate. apply lt_true in H. now rewrite H.
Qed.

Lemma moveGate_up gate target :
  GATE_SPEED <= JS.abs (gate - target) -> gate < target ->
  moveGate gate target = (gate + GATE_SPEED, true).
Proof.
  intros H L. unfold moveGate. apply lt_false in H. apply lt_true in L.
  now rewrite H, L.
Qed.

Lemma moveGate_down gate target :
  GATE_SPEED <= JS.abs (gate - target) -> target <= gate ->
  moveGate gate target = (gate - GATE_SPEED, true).
Proof.
  intros H L. unfold moveGate. apply lt_false in H. apply lt_false in L.
  now rewrite H, L.
Qed.

Lemma abs_cases (x : Q) : (0 <= x /\ JS.abs x == x) \/ (x <= 0 /\ JS.abs x == - x).
Proof.
  destruct (Qlt_le_dec x 0) as [H | H].
  - right. split; [lra |]. apply Qabs_neg. lra.
  - left. split; [lra |]. now apply Qabs_pos.
Qed.

Lemma moveGate_between gate target :
  let next := fst (moveGate gate target) in
  (gate <= target -> gate <= next <= target) /\
  (target <= gate -> target <= next <= gate).
Proof.
  cbn [fst]. destruct (Qlt_le_dec (JS.abs (gate - target)) GATE_SPEED) as [H | H].
  - rewrite (moveGate_snap _ _ H). cbn [fst]. split; intros; lra.
  - destruct (Qlt_le_dec gate target) as [L | L].
    + rewrite (moveGate_up _ _ H L). cbn [fst].
      destruct (abs_cases (gate - target)) as [[A B] | [A B]];
        rewrite B in H; unfold GATE_SPEED in *; split; intros; lra.
    + rewrite (moveGate_down _ _ H L). cbn [fst].
      destruct (abs_cases (gate - target)) as [[A B] | [A B]];
        rewrite B in H; unfold GATE_SPEED in *; split; intros; lra.
Qed.

Lemma moveGate_bounds gate target :
  0 <= gate <= 100 -> 0 <= target <= 100 ->
  0 <= fst (moveGate gate target) <= 100.
Proof.
  intros Hg Ht. destruct (moveGate_between gate target) as [U D].
  destruct (Qlt_le_dec gate target) as [L | L].
  - assert (gate <= target) as G by lra. specialize (U G). lra.
  - specialize (D L). lra.
Qed.

Lemma chase_at_target n target : chase n target target = target.
Proof.
  induction n as [| n IH]; cbn [chase]; [reflexivity |].
  rewrite moveGate_snap; [exact IH |].
  apply abs_lt. unfold GATE_SPEED. lra.
Qed.

Lemma chase_within n gate target :
  JS.abs (gate - target) < GATE_SPEED -> (1 <= n)%nat ->
  chase n gate target = target.
Proof.
  intros H Hn. destruct n as [| n]; [lia |]. cbn [chase].
  rewrite (moveGate_snap _ _ H). cbn [fst]. apply chase_at_target.
Qed.

(** C4. In a tick the gate moves by at most [GATE_SPEED]: it takes the
    value of the target when less than one step away and otherwise moves by
    exactly [GATE_SPEED] towards it, never past it; with the target held,
    a gate within one step of it is on it after one tick and stays there. *)
Theorem gate_kinematics :
  forall (Math_pow : Q -> Q -> Q) (Math_sqrt : Q -> Q)
         (m : SystemMode) (cfg : SimulationConfig) (ref : option WateringOrder)
         (random : Q) (now : Z) (prev : SystemState),
    let s' := tickState Math_pow Math_sqrt m cfg ref random now prev in
    let gate := gateOpening prev in
    let target := targetGateOpening s' in
    let next := gateOpening s' in
    JS.abs (next - gate) <= GATE_SPEED /\
    (JS.abs (gate - target) < GATE_SPEED -> next = target) /\
    (GATE_SPEED <= JS.abs (gate - target) -> gate < target ->
       next = gate + GATE_SPEED /\ next <= target) /\
    (GATE_SPEED <= JS.abs (gate - target) -> target < gate ->
       next = gate - GATE_SPEED /\ target <= next) /\
    (JS.abs (gate - target) < GATE_SPEED ->
       forall n, (1 <= n)%nat -> chase n gate target = target).
Proof.
  intros. subst next. unfold s'. rewrite tick_gateOpening. fold s'. fold target.
  fold gate.
  pose proof (moveGate_between gate target) as [U D]. cbn [fst] in U, D.
  repeat split.
  - destruct (Qlt_le_dec (JS.abs (gate - target)) GATE_SPEED) as [H | H].
    + rewrite (moveGate_snap _ _ H). cbn [fst].
      apply abs_lt in H. apply abs_le. unfold GATE_SPEED in *. lra.
    + destruct (Qlt_le_dec gate target) as [L | L].
      * rewrite (moveGate_up _ _ H L). cbn [fst]. apply abs_le.
        unfold GATE_SPEED. lra.
      * rewrite (moveGate_down _ _ H L). cbn [fst]. apply abs_le.
        unfold GATE_SPEED. lra.
  - intros H. now rewrite (moveGate_snap _ _ H).
  - now rewrite (moveGate_up _ _ H H0).
  - assert (G : gate <= target) by lra. specialize (U G). lra.
  - rewrite moveGate_down; [reflexivity | assumption | lra].
  - assert (G : target <= gate) by lra. specialize (D G). lra.
  - intros H n Hn. now apply chase_within.
Qed.

(** ** Gate status *)

(** C5. The status stored by a tick is computed from the previous and the
    new gate opening alone: OPENING when the opening grew, CLOSING when it
    shrank, and only when it did not change CLOSED at 0, OPEN at 100 and
    PARTIALLY OPEN elsewhere. *)
Theorem gate_status_derivation :
  forall (Math_pow : Q -> Q -> Q) (Math_sqrt : Q -> Q)
         (m : SystemMode) (cfg : SimulationConfig) (ref : option WateringOrder)
         (random : Q) (now : Z) (prev : SystemState),
    let s' := tickState Math_pow Math_sqrt m cfg ref random now prev in
    let before := gateOpening prev in
    let after := gateOpening s' in
    gateStatus s' = determineStatus before after /\
    (before < after -> gateStatus s' = OPENING) /\
    (after < before -> gateStatus s' = CLOSING) /\
    (after == before -> after == 0 -> gateStatus s' = CLOSED) /\
    (after == before -> ~ after == 0 -> after == 100 -> gateStatus s' = OPEN) /\
    (after == before -> ~ after == 0 -> ~ after == 100 ->
       gateStatus s' = PARTIALLY_OPEN).
Proof.
  intros. unfold s'. rewrite tick_gateStatus. fold s'. fold before. fold after.
  split; [reflexivity |]. unfold determineStatus.
  js_test (JS.gt after before); [repeat split; intros; try reflexivity; lra |].
  js_test (JS.lt after before); [repeat split; intros; try reflexivity; lra |].
  js_test (JS.eq after 0).
  { repeat split; intros; try reflexivity; try lra; contradiction. }
  assert (N0 : ~ after == 0).
  { intros H. apply eq_true in H. congruence. }
  js_test (JS.eq after 100).
  { repeat split; intros; try reflexivity; try lra; contradiction. }
  assert (N100 : ~ after == 100).
  { intros H. apply eq_true in H. congruence. }
  repeat split; intros; try reflexivity; try lra; contradiction.
Qed.

(** ** Outflow *)

Lemma h1_nonneg prev nextGateOpening : 0 <= h1 prev nextGateOpening.
Proof.
  unfold h1.
  destruct (max_cases 0 (waterLevel prev - currentGateHeightM nextGateOpening))
    as [[H E] | [H E]]; rewrite E; lra.
Qed.

Lemma outflowGuard_true prev nextGateOpening :
  outflowGuard prev nextGateOpening = true <->
  0.01 < waterLevel prev /\ 0.01 < currentGateHeightM nextGateOpening.
Proof.
  unfold outflowGuard. rewrite andb_true_iff, !gt_true. reflexivity.
Qed.

Lemma gate_closed_height nextGateOpening :
  nextGateOpening == 0 -> currentGateHeightM nextGateOpening == 0.
Proof.
  intros H. unfold currentGateHeightM. rewrite H. reflexivity.
Qed.

Lemma gate_height_metres (opening : Q) :
  opening / 100 * (200 / 100) == opening * (2 # 100).
Proof. field. Qed.

Lemma currentOutflow_guarded Math_pow Math_sqrt prev nextGateOpening :
  0.01 < waterLevel prev ->
  0.01 < nextGateOpening / 100 * (200 / 100) ->
  currentOutflow Math_pow Math_sqrt prev nextGateOpening =
  (2 / 3) * 0.6 * 3.0 * Math_sqrt (2 * 9.81) *
  (Math_pow (waterLevel prev) 1.5 -
   Math_pow (JS.max 0 (waterLevel prev - nextGateOpening / 100 * (200 / 100))) 1.5).
Proof.
  intros L H. unfold currentOutflow.
  assert (G : outflowGuard prev nextGateOpening = true).
  { apply outflowGuard_true. split; [exact L | exact H]. }
  rewrite G. reflexivity.
Qed.

Lemma currentOutflow_unguarded Math_pow Math_sqrt prev nextGateOpening :
  ~ (0.01 < waterLevel prev /\ 0.01 < nextGateOpening / 100 * (200 / 100)) ->
  currentOutflow Math_pow Math_sqrt prev nextGateOpening = 0.
Proof.
  intros N. unfold currentOutflow.
  destruct (outflowGuard prev nextGateOpening) eqn:G; [| reflexivity].
  exfalso. apply N. apply outflowGuard_true in G. exact G.
Qed.

(** The outflow reads [Math.pow] at the exponent 1.5 and on bases that are
    not negative, and nowhere else. *)
Lemma currentOutflow_pow_ext Math_pow Math_pow' Math_sqrt prev nextGateOpening :
  (forall x, 0 <= x -> Math_pow' x 1.5 = Math_pow x 1.5) ->
  currentOutflow Math_pow' Math_sqrt prev nextGateOpening =
  currentOutflow Math_pow Math_sqrt prev nextGateOpening.
Proof.
  intros A. unfold currentOutflow.
  destruct (outflowGuard prev nextGateOpening) eqn:G; [| reflexivity].
  apply outflowGuard_true in G. destruct G as [G1 G2]. cbv zeta.
  rewrite (A (h2 prev)), (A (h1 prev nextGateOpening)); [reflexivity | |].
  - apply h1_nonneg.
  - unfold h2. lra.
Qed.

Lemma tickState_pow_ext Math_pow Math_pow' Math_sqrt m cfg ref random now prev :
  (forall x, 0 <= x -> Math_pow' x 1.5 = Math_pow x 1.5) ->
  tickState Math_pow' Math_sqrt m cfg ref random now prev =
  tickState Math_pow Math_sqrt m cfg ref random now prev.
Proof.
  intros A. unfold tickState.
  destruct (moveGate (gateOpening prev) (nextTargetGate m cfg ref prev))
    as [nextGateOpening isMoving].
  cbv zeta.
  rewrite (currentOutflow_pow_ext Math_pow Math_pow' Math_sqrt prev
             nextGateOpening A).
  reflexivity.
Qed.

(** C6. With [level] the water level before the tick and
    [height = gateOpening / 100 * (200 / 100)] the height in metres of the
    opening the tick stores (2 m at 100 percent), the outflow of the tick is
    [(2/3) * 0.6 * 3.0 * sqrt (2 * 9.81) * (level^1.5 - h1^1.5)] with
    [h1 = max 0 (level - height)] when [level > 0.01] and [height > 0.01],
    and 0 otherwise: so it is 0 with the gate at 0, and up to 0.5 percent,
    whatever the level, and 0 at a level of at most 0.01.  [Math.pow] is
    not evaluated on a negative argument: [h1] is floored at 0, under the
    guard the level is positive and [h1] below it, and the whole state
    returned by the tick is the same for every other [Math.pow] that agrees
    with this one at the exponent 1.5 on the numbers that are not negative. *)
Theorem outflow_guarded :
  forall (Math_pow : Q -> Q -> Q) (Math_sqrt : Q -> Q)
         (m : SystemMode) (cfg : SimulationConfig) (ref : option WateringOrder)
         (random : Q) (now : Z) (prev : SystemState),
    let s' := tickState Math_pow Math_sqrt m cfg ref random now prev in
    let level := waterLevel prev in
    let height := gateOpening s' / 100 * (200 / 100) in
    let depthTop := JS.max 0 (level - height) in
    height == gateOpening s' * 2 / 100 /\
    (0.01 < level -> 0.01 < height ->
       outflowRate s' =
       (2 / 3) * 0.6 * 3.0 * Math_sqrt (2 * 9.81) *
       (Math_pow level 1.5 - Math_pow depthTop 1.5)) /\
    (~ (0.01 < level /\ 0.01 < height) -> outflowRate s' = 0) /\
    (gateOpening s' == 0 -> outflowRate s' = 0) /\
    (gateOpening s' <= 0.5 -> outflowRate s' = 0) /\
    (level <= 0.01 -> outflowRate s' = 0) /\
    0 <= depthTop /\
    (0.01 < level -> 0.01 < height -> 0 < level /\ depthTop < level) /\
    (forall Math_pow' : Q -> Q -> Q,
       (forall x, 0 <= x -> Math_pow' x 1.5 = Math_pow x 1.5) ->
       tickState Math_pow' Math_sqrt m cfg ref random now prev = s').
Proof.
  intros.
  assert (O : outflowRate s' =
              currentOutflow Math_pow Math_sqrt prev (gateOpening s'))
    by apply tick_outflowRate.
  pose proof (gate_height_metres (gateOpening s')) as M. fold height in M.
  assert (U : ~ (0.01 < level /\ 0.01 < height) -> outflowRate s' = 0).
  { rewrite O. apply currentOutflow_unguarded. }
  split; [| split; [| split; [| split; [| split; [| split; [| split; [| split]]]]]]].
  - rewrite M. field.
  - rewrite O. apply currentOutflow_guarded.
  - exact U.
  - intros E. apply U. intros [_ H]. rewrite M, E in H. lra.
  - intros E. apply U. intros [_ H]. rewrite M in H. lra.
  - intros E. apply U. intros [H _]. lra.
  - subst depthTop.
    destruct (max_cases 0 (level - height)) as [[H E] | [H E]]; rewrite E; lra.
  - intros L H. split; [lra |]. subst depthTop.
    destruct (max_cases 0 (level - height)) as [[H1 E] | [H1 E]]; rewrite E; lra.
  - intros Math_pow' A. now apply tickState_pow_ext.
Qed.

(** ** Bounds *)

Lemma newLevel_bounds cfg prev inflow outflow :
  0 <= newLevel cfg prev inflow outflow <= MAX_WATER_LEVEL.
Proof.
  unfold newLevel. cbn zeta.
  set (x := waterLevel prev + (inflow - outflow) / RESERVOIR_AREA * dtSeconds cfg).
  destruct (max_cases 0 x) as [[H1 E1] | [H1 E1]];
    destruct (min_cases MAX_WATER_LEVEL (JS.max 0 x)) as [[H2 E2] | [H2 E2]];
    rewrite E2; unfold MAX_WATER_LEVEL in *; lra.
Qed.

Lemma jog_open_bounds (t k : Q) :
  0 <= t <= 100 -> 0 <= k -> 0 <= JS.min 100 (t + k) <= 100.
Proof.
  intros Ht Hk. destruct (min_cases 100 (t + k)) as [[H E] | [H E]];
    rewrite E; lra.
Qed.

Lemma jog_close_bounds (t k : Q) :
  0 <= t <= 100 -> 0 <= k -> 0 <= JS.max 0 (t - k) <= 100.
Proof.
  intros Ht Hk. destruct (max_cases 0 (t - k)) as [[H E] | [H E]];
    rewrite E; lra.
Qed.

Lemma initialMove_inBounds direction prev :
  inBounds prev -> inBounds (initialMove direction prev).
Proof.
  intros (Hw & Hg & Ht). unfold inBounds, initialMove. cbn.
  repeat split; try tauto;
    destruct direction;
    first [ apply jog_open_bounds | apply jog_close_bounds ]; auto; lra.
Qed.

Lemma continuousMove_inBounds direction prev :
  inBounds prev -> inBounds (continuousMove direction prev).
Proof.
  intros (Hw & Hg & Ht). unfold inBounds, continuousMove. cbn.
  repeat split; try tauto;
    destruct direction;
    first [ apply jog_open_bounds | apply jog_close_bounds ]; auto; lra.
Qed.

Lemma tickState_inBounds Math_pow Math_sqrt m cfg ref random now prev :
  inBounds prev ->
  inBounds (tickState Math_pow Math_sqrt m cfg ref random now prev).
Proof.
  intros (Hw & Hg & Ht). unfold inBounds.
  rewrite tick_waterLevel, tick_gateOpening, tick_targetGateOpening.
  pose proof (nextTargetGate_bounds m cfg ref prev Hg Ht) as Hn.
  split; [apply newLevel_bounds |].
  split; [apply moveGate_bounds; assumption | assumption].
Qed.

(** C1. A tick started from a state within the bounds
    [0 <= waterLevel <= MAX_WATER_LEVEL] and
    [0 <= gateOpening, targetGateOpening <= 100] ends in a state within
    them, for every mode, set-point, order, inflow noise and tick period;
    so do the press and the repeat of the manual buttons. *)
Theorem bounds_preserved :
  forall (Math_pow : Q -> Q -> Q) (Math_sqrt : Q -> Q) (a : App),
    inBounds (systemState a) ->
    (forall random now,
       inBounds (systemState (tickSimulation Math_pow Math_sqrt random now a))) /\
    (forall direction, inBounds (systemState (startManualMove direction a))) /\
    inBounds (systemState (holdTimerFires a)).
Proof.
  intros Math_pow Math_sqrt a H. split; [| split].
  - intros random now. unfold tickSimulation. cbn.
    destruct (activeOrderRef a); cbn; now apply tickState_inBounds.
  - intros direction. unfold startManualMove. destruct (mode a); cbn;
      [exact H | now apply initialMove_inBounds].
  - unfold holdTimerFires. destruct (holdTimer a); cbn;
      [now apply continuousMove_inBounds | exact H].
Qed.

(** ** What a tick does to the component *)

Lemma tickSimulation_systemState Math_pow Math_sqrt random now a :
  systemState (tickSimulation Math_pow Math_sqrt random now a) =
  tickState Math_pow Math_sqrt (mode a) (config a) (activeOrderRef a) random now
            (systemState a).
Proof. unfold tickSimulation. destruct (activeOrderRef a); reflexivity. Qed.

Lemma tickSimulation_activeOrder Math_pow Math_sqrt random now a :
  activeOrder (tickSimulation Math_pow Math_sqrt random now a) =
  if JS.truthy (activeOrderRef a) then
    orderProgress
      (volumeIncrement (config a)
         (systemState (tickSimulation Math_pow Math_sqrt random now a)))
      (powerIncrement (config a)
         (systemState (tickSimulation Math_pow Math_sqrt random now a)))
      (activeOrder a)
  else activeOrder a.
Proof.
  rewrite tickSimulation_systemState. unfold tickSimulation.
  destruct (activeOrderRef a); reflexivity.
Qed.

Lemma tickSimulation_frame Math_pow Math_sqrt random now a :
  let a' := tickSimulation Math_pow Math_sqrt random now a in
  mode a' = mode a /\ config a' = config a /\
  lastCompletedOrder a' = lastCompletedOrder a /\
  activeOrderRef a' = activeOrderRef a /\ holdTimer a' = holdTimer a.
Proof.
  cbn zeta. unfold tickSimulation.
  destruct (activeOrderRef a) eqn:E; cbn; rewrite ?E; repeat split.
Qed.

Lemma sameOrderButProgress_refl o : sameOrderButProgress o o.
Proof. unfold sameOrderButProgress. tauto. Qed.

Lemma orderProgress_frame dv dp curr :
  match curr, orderProgress dv dp curr with
  | Some o, Some o' =>
      sameOrderButProgress o o' /\
      deliveredVolume o' = deliveredVolume o + dv /\
      powerConsumed o' = powerConsumed o + dp
  | None, None => True
  | _, _ => False
  end.
Proof.
  destruct curr as [o |]; cbn; [| exact I].
  unfold sameOrderButProgress. cbn. tauto.
Qed.

(** ** Invariants of the reachable states *)

Lemma orderOk_None st : orderOk st None.
Proof. intros o H. discriminate. Qed.

Lemma orderOk_progress st dv dp curr :
  orderOk st curr -> orderOk st (orderProgress dv dp curr).
Proof.
  intros H o' E. destruct curr as [o |]; cbn in E; [| discriminate].
  injection E as <-. cbn. now apply H.
Qed.

Create HintDb inv.
#[local] Hint Resolve orderOk_None orderOk_progress : inv.

Lemma Inv_initial now : Inv (initialApp now).
Proof.
  constructor; cbn; auto with inv.
  - reflexivity.
  - unfold inBounds, MAX_WATER_LEVEL. cbn. lra.
Qed.

Lemma Inv_tick Math_pow Math_sqrt random now a :
  Inv a -> Inv (tickSimulation Math_pow Math_sqrt random now a).
Proof.
  intros [Hs Hc Hb Ha Hr Hl].
  pose proof (tickSimulation_frame Math_pow Math_sqrt random now a)
    as (Em & Ec & El & Er & Eh). cbn zeta in *.
  constructor.
  - now rewrite Ec.
  - rewrite tickSimulation_systemState, tick_totalCost. reflexivity.
  - rewrite tickSimulation_systemState. now apply tickState_inBounds.
  - rewrite tickSimulation_activeOrder.
    destruct (JS.truthy (activeOrderRef a)); auto with inv.
  - now rewrite Er.
  - now rewrite El.
Qed.

Lemma Inv_flushEffects now a : Inv a -> Inv (flushEffects now a).
Proof.
  intros [Hs Hc Hb Ha Hr Hl]. unfold flushEffects, orderCompletionCheck.
  cbn [activeOrder syncActiveOrderRef setActiveOrderRef].
  destruct (activeOrder a) as [o |] eqn:E.
  - destruct (JS.ge (deliveredVolume o) (targetVolume o)
              && OrderStatus_eqb (status o) ACTIVE).
    + constructor; cbn; rewrite ?E; auto with inv.
      intros o' H. injection H as <-. cbn. split; [reflexivity |].
      now apply (Ha o).
    + constructor; cbn; rewrite ?E; auto.
  - constructor; cbn; rewrite ?E; auto with inv.
Qed.

Section MachineInvariant.

Variable Math_pow : Q -> Q -> Q.
Variable Math_sqrt : Q -> Q.

Lemma Inv_step e a : Inv a -> Inv (step Math_pow Math_sqrt e a).
Proof.
  intros H. destruct e; cbn [step].
  - destruct (isSimulating a); [now apply Inv_tick | exact H].
  - destruct H as [Hs Hc Hb Ha Hr Hl]. unfold startManualMove.
    destruct (mode a); constructor; cbn; auto.
    now apply initialMove_inBounds.
  - destruct H as [Hs Hc Hb Ha Hr Hl]. unfold stopManualMove.
    destruct (holdTimer a); constructor; cbn; auto.
  - destruct H as [Hs Hc Hb Ha Hr Hl]. unfold holdTimerFires.
    destruct (holdTimer a); constructor; cbn; auto.
    now apply continuousMove_inBounds.
  - destruct H as [Hs Hc Hb Ha Hr Hl]. constructor; cbn; auto.
    intros o E. injection E as <-. cbn. auto.
  - destruct H as [Hs Hc Hb Ha Hr Hl]. constructor; cbn; auto with inv.
  - destruct H as [Hs Hc Hb Ha Hr Hl]. constructor; cbn; auto.
  - destruct H as [Hs Hc Hb Ha Hr Hl]. constructor; cbn; auto.
  - now apply Inv_flushEffects.
Qed.

Lemma Reachable_Inv a : Reachable Math_pow Math_sqrt a -> Inv a.
Proof.
  induction 1 as [now | e a R IH].
  - apply Inv_initial.
  - now apply Inv_step.
Qed.

Lemma Reachable_run es a :
  Reachable Math_pow Math_sqrt a ->
  Reachable Math_pow Math_sqrt (run Math_pow Math_sqrt es a).
Proof.
  revert a. induction es as [| e es IH]; intros a R; cbn [run].
  - exact R.
  - apply IH. now constructor.
Qed.

End MachineInvariant.

(** Decide a closed order fact between rationals by evaluation. *)
Ltac q_eval := vm_compute; first [reflexivity | discriminate].

Lemma Reachable_session : Reachable approx_pow approx_sqrt sessionApp.
Proof. apply Reachable_run. constructor. Qed.

(** ** Energy and cost *)


Lemma motorPower_pos isMoving : 0 < motorPower isMoving.
Proof. destruct isMoving; reflexivity. Qed.

Lemma energy_step cfg (power : Q) :
  0 <= simulationSpeed cfg -> 0 < power -> 0 <= power * dtHours cfg.
Proof.
  intros Hs Hp. unfold dtHours, dtSeconds.
  apply Qmult_le_0_compat; [lra |].
  apply Qle_shift_div_l; [reflexivity |].
  ring_simplify. apply Qle_shift_div_l; [reflexivity | lra].
Qed.



(** ** Orders *)

Lemma handleStartOrder_fresh clientName hectares nowId nowStart a :
  activeOrder (handleStartOrder clientName hectares nowId nowStart a) =
  Some {| id := JS.toString nowId;
          clientName := clientName;
          hectares := hectares;
          targetVolume := hectares * 1000;
          deliveredVolume := 0;
          startTime := nowStart;
          endTime := None;
          status := ACTIVE;
          powerConsumed := 0;
          waterCost := 0 |}.
Proof. reflexivity. Qed.


Lemma flushEffects_pending now a o :
  activeOrder a = Some o -> deliveredVolume o < targetVolume o ->
  activeOrder (flushEffects now a) = Some o /\
  activeOrderRef (flushEffects now a) = Some o /\
  lastCompletedOrder (flushEffects now a) = lastCompletedOrder a.
Proof.
  intros E H. unfold flushEffects, orderCompletionCheck.
  cbn [activeOrder syncActiveOrderRef setActiveOrderRef]. rewrite E.
  apply ge_false in H. rewrite H. cbn. rewrite E. repeat split.
Qed.

Lemma tick_accumulates Math_pow Math_sqrt random now a o :
  activeOrder a = Some o -> activeOrderRef a <> None ->
  let a' := tickSimulation Math_pow Math_sqrt random now a in
  exists o',
    activeOrder a' = Some o' /\
    deliveredVolume o' =
      deliveredVolume o + outflowRate (systemState a') * dtSeconds (config a) /\
    powerConsumed o' =
      powerConsumed o + currentPower (systemState a') * (dtSeconds (config a) / 3600) /\
    sameOrderButProgress o o'.
Proof.
  intros E R a'. subst a'. rewrite tickSimulation_activeOrder, E.
  destruct (activeOrderRef a); [| congruence]. cbn [JS.truthy orderProgress].
  eexists. split; [reflexivity |]. cbn. unfold sameOrderButProgress. cbn.
  repeat split.
Qed.



Lemma countActive_le_1 a : Inv a -> (countActive a <= 1)%nat.
Proof.
  intros [_ _ _ _ _ Hl]. unfold countActive.
  destruct (lastCompletedOrder a) as [l |].
  - destruct (Hl l eq_refl) as [S _].
    destruct (activeOrder a) as [o |]; cbn; rewrite S; cbn;
      [destruct (OrderStatus_eqb (status o) ACTIVE); cbn |]; lia.
  - destruct (activeOrder a) as [o |]; cbn;
      [destruct (OrderStatus_eqb (status o) ACTIVE); cbn |]; lia.
Qed.

(** C2 as stated does not hold: in a session with an ACTIVE order, a second
    start request replaces that order. *)
Lemma second_start_overwrites : ~ secondStartRejected sessionApp.
Proof.
  intros H.
  destruct (activeOrder sessionApp) as [o |] eqn:E; [| vm_compute in E; discriminate].
  assert (S : status o = ACTIVE).
  { vm_compute in E. injection E as <-. reflexivity. }
  specialize (H "Second"%string 10 1300%Z 1300%Z o E S).
  rewrite handleStartOrder_fresh in H. injection H as H. subst o.
  vm_compute in E. discriminate E.
Qed.

(** C2, amended. [handleStartOrder] makes no test: whatever the slot held,
    it holds the fresh ACTIVE order afterwards and nothing else of the
    component changes (the start button is what is disabled while an order
    is active).  As there is one active slot and the last completed order is
    COMPLETED, at most one ACTIVE order exists before and after. *)
Theorem start_order_replaces_slot :
  forall (Math_pow : Q -> Q -> Q) (Math_sqrt : Q -> Q) (a : App),
    Reachable Math_pow Math_sqrt a ->
    forall (name : string) (h : Q) (nowId nowStart : Z),
      let a' := handleStartOrder name h nowId nowStart a in
      (exists o,
         activeOrder a' = Some o /\
         id o = JS.toString nowId /\ clientName o = name /\ hectares o = h /\
         targetVolume o = h * 1000 /\ deliveredVolume o = 0 /\
         startTime o = nowStart /\ status o = ACTIVE /\ powerConsumed o = 0) /\
      lastCompletedOrder a' = lastCompletedOrder a /\
      systemState a' = systemState a /\
      mode a' = mode a /\ config a' = config a /\
      (countActive a <= 1)%nat /\ (countActive a' <= 1)%nat.
Proof.
  intros Math_pow Math_sqrt a R name h nowId nowStart a'.
  split.
  - eexists. split; [apply handleStartOrder_fresh |]. cbn. repeat split.
  - do 4 (split; [reflexivity |]). split.
    + apply countActive_le_1. now apply (Reachable_Inv Math_pow Math_sqrt).
    + apply countActive_le_1. apply (Reachable_Inv Math_pow Math_sqrt).
      apply (reach_step _ _ (StartOrder name h nowId nowStart)). exact R.
Qed.

Lemma start_order_replaces_slot_witness :
  (countActive (handleStartOrder "Second" 10 1300 1300 sessionApp) <= 1)%nat /\
  option_map clientName
    (activeOrder (handleStartOrder "Second" 10 1300 1300 sessionApp))
  = Some "Second"%string.
Proof.
  destruct (start_order_replaces_slot approx_pow approx_sqrt sessionApp
              Reachable_session "Second" 10 1300%Z 1300%Z)
    as [(o & E & _ & N & _) (_ & _ & _ & _ & _ & C)].
  split; [exact C |]. rewrite E. cbn. now rewrite N.
Defined.

(** ** Cancellation *)

Lemma step_keeps_empty_slot Math_pow Math_sqrt e a :
  isStartOrder e = false -> activeOrder a = None ->
  activeOrder (step Math_pow Math_sqrt e a) = None /\
  lastCompletedOrder (step Math_pow Math_sqrt e a) = lastCompletedOrder a.
Proof.
  intros N E. destruct e; cbn [step]; try discriminate.
  - destruct (isSimulating a); [| auto].
    rewrite tickSimulation_activeOrder, E.
    split; [destruct (JS.truthy (activeOrderRef a)); reflexivity |].
    apply tickSimulation_frame.
  - unfold startManualMove. destruct (mode a); cbn; auto.
  - unfold stopManualMove. destruct (holdTimer a); cbn; auto.
  - unfold holdTimerFires. destruct (holdTimer a); cbn; auto.
  - cbn. auto.
  - cbn. auto.
  - cbn. auto.
  - unfold flushEffects, orderCompletionCheck.
    cbn [activeOrder syncActiveOrderRef setActiveOrderRef]. rewrite E. cbn. auto.
Qed.

Lemma run_keeps_empty_slot Math_pow Math_sqrt es a :
  forallb (fun e => negb (isStartOrder e)) es = true ->
  activeOrder a = None ->
  activeOrder (run Math_pow Math_sqrt es a) = None /\
  lastCompletedOrder (run Math_pow Math_sqrt es a) = lastCompletedOrder a.
Proof.
  revert a. induction es as [| e es IH]; intros a N E; cbn [run].
  - auto.
  - cbn [forallb] in N. apply andb_true_iff in N. destruct N as [Ne Nes].
    apply negb_true_iff in Ne.
    destruct (step_keeps_empty_slot Math_pow Math_sqrt e a Ne E) as [A L].
    destruct (IH _ Nes A) as [A' L']. split; congruence.
Qed.

Lemma heldOrders_not_cancelled a o :
  Inv a -> In o (heldOrders a) -> status o <> CANCELLED.
Proof.
  intros [_ _ _ Ha Hr Hl] I. unfold heldOrders in I.
  apply in_app_or in I. destruct I as [I | I].
  - destruct (activeOrder a) as [x |]; [| contradiction].
    destruct I as [<- | []]. destruct (Ha x eq_refl) as [S _]. congruence.
  - apply in_app_or in I. destruct I as [I | I].
    + destruct (lastCompletedOrder a) as [x |]; [| contradiction].
      destruct I as [<- | []]. destruct (Hl x eq_refl) as [S _]. congruence.
    + destruct (activeOrderRef a) as [x |]; [| contradiction].
      destruct I as [<- | []]. destruct (Hr x eq_refl) as [S _]. congruence.
Qed.

(** C9 as stated does not hold: after the cancellation of the ACTIVE order
    of a session the component holds no order with status CANCELLED. *)
Lemma cancel_writes_no_status : ~ cancelMarksCancelled sessionApp.
Proof.
  intros H.
  destruct (activeOrder sessionApp) as [o |] eqn:E; [| vm_compute in E; discriminate].
  assert (S : status o = ACTIVE).
  { vm_compute in E. injection E as <-. reflexivity. }
  destruct (H o E S) as (o' & I & _ & C).
  apply (heldOrders_not_cancelled (handleCancelOrder sessionApp) o'); [| exact I | exact C].
  apply (Reachable_Inv approx_pow approx_sqrt).
  apply (reach_step _ _ CancelOrder). apply Reachable_session.
Qed.

(** C9, amended. Cancellation empties the active slot and writes nothing
    else: the last completed order is unchanged, so the cancelled order is
    neither promoted to COMPLETED nor retained; no order object is created
    or modified, and no order held by the component has status CANCELLED;
    until a new start request the slot stays empty and the last completed
    order stays the same under every sequence of ticks, effect flushes and
    other events, so nothing is accumulated any more. *)
Theorem cancel_discards_order :
  forall (Math_pow : Q -> Q -> Q) (Math_sqrt : Q -> Q) (a : App),
    Reachable Math_pow Math_sqrt a ->
    let c := handleCancelOrder a in
    activeOrder c = None /\
    lastCompletedOrder c = lastCompletedOrder a /\
    systemState c = systemState a /\
    (forall o, In o (heldOrders c) -> In o (heldOrders a) /\ status o <> CANCELLED) /\
    (forall es,
       forallb (fun e => negb (isStartOrder e)) es = true ->
       activeOrder (run Math_pow Math_sqrt es c) = None /\
       lastCompletedOrder (run Math_pow Math_sqrt es c) = lastCompletedOrder a).
Proof.
  intros Math_pow Math_sqrt a R c.
  do 3 (split; [reflexivity |]). split.
  - intros o I. split.
    + unfold heldOrders in *. cbn in I. apply in_or_app. right. exact I.
    + apply (heldOrders_not_cancelled c); [| exact I].
      apply (Reachable_Inv Math_pow Math_sqrt).
      apply (reach_step _ _ CancelOrder). exact R.
  - intros es N. now apply (run_keeps_empty_slot Math_pow Math_sqrt es c N).
Qed.

Lemma cancel_discards_order_witness :
  activeOrder (handleCancelOrder sessionApp) = None /\
  activeOrder
    (run approx_pow approx_sqrt [Effects 1300; Tick 0.5 1400; Effects 1401]
       (handleCancelOrder sessionApp)) = None.
Proof.
  destruct (cancel_discards_order approx_pow approx_sqrt sessionApp
              Reachable_session) as (A & _ & _ & _ & F).
  split; [exact A |].
  apply (F [Effects 1300%Z; Tick 0.5 1400%Z; Effects 1401%Z]). reflexivity.
Defined.

(** ** The frame of the order update *)

Lemma heldOrders_waterCost a o :
  Inv a -> In o (heldOrders a) -> waterCost o = 0.
Proof.
  intros [_ _ _ Ha Hr Hl] I. unfold heldOrders in I.
  apply in_app_or in I. destruct I as [I | I].
  - destruct (activeOrder a) as [x |]; [| contradiction].
    destruct I as [<- | []]. now destruct (Ha x eq_refl).
  - apply in_app_or in I. destruct I as [I | I].
    + destruct (lastCompletedOrder a) as [x |]; [| contradiction].
      destruct I as [<- | []]. now destruct (Hl x eq_refl).
    + destruct (activeOrderRef a) as [x |]; [| contradiction].
      destruct I as [<- | []]. now destruct (Hr x eq_refl).
Qed.

(** C10. The order update of a tick changes [deliveredVolume] and
    [powerConsumed] of the active order and nothing else of it: [id],
    [clientName], [hectares], [targetVolume], [startTime], [status],
    [endTime] and [waterCost] are kept, and an empty slot stays empty.
    In every state of a session, before and after the tick, every order the
    component holds has [waterCost = 0]; the water cost of the report is
    [deliveredVolume * WATER_COST_PER_M3], whatever the [waterCost] field. *)
Theorem tick_order_frame :
  forall (Math_pow : Q -> Q -> Q) (Math_sqrt : Q -> Q) (a : App),
    Reachable Math_pow Math_sqrt a ->
    forall (random : Q) (now : Z),
      let a' := tickSimulation Math_pow Math_sqrt random now a in
      match activeOrder a, activeOrder a' with
      | Some o, Some o' =>
          id o' = id o /\ clientName o' = clientName o /\
          hectares o' = hectares o /\ targetVolume o' = targetVolume o /\
          startTime o' = startTime o /\ status o' = status o /\
          endTime o' = endTime o /\ waterCost o' = waterCost o
      | None, None => True
      | _, _ => False
      end /\
      (forall o, In o (heldOrders a) -> waterCost o = 0) /\
      (forall o, In o (heldOrders a') -> waterCost o = 0) /\
      (forall o, pdfWaterCost o = deliveredVolume o * WATER_COST_PER_M3) /\
      (forall o o' rate,
         deliveredVolume o' = deliveredVolume o ->
         powerConsumed o' = powerConsumed o ->
         pdfTotalCost rate o' = pdfTotalCost rate o).
Proof.
  intros Math_pow Math_sqrt a R random now a'.
  pose proof (Reachable_Inv _ _ _ R) as HI.
  assert (HI' : Inv a') by (now apply Inv_tick).
  split; [| split; [| split; [| split]]].
  - subst a'. rewrite tickSimulation_activeOrder.
    destruct (JS.truthy (activeOrderRef a)).
    + pose proof (orderProgress_frame
                    (volumeIncrement (config a)
                       (systemState (tickSimulation Math_pow Math_sqrt random now a)))
                    (powerIncrement (config a)
                       (systemState (tickSimulation Math_pow Math_sqrt random now a)))
                    (activeOrder a)) as F.
      destruct (activeOrder a), (orderProgress _ _ _); try exact F.
      destruct F as [F _]. exact F.
    + destruct (activeOrder a) as [o |]; [apply sameOrderButProgress_refl | exact I].
  - intros o. now apply heldOrders_waterCost.
  - intros o. now apply heldOrders_waterCost.
  - reflexivity.
  - intros o o' rate D P. unfold pdfTotalCost, pdfWaterCost, pdfPowerCost.
    now rewrite D, P.
Qed.

Lemma tick_order_frame_witness :
  option_map waterCost
    (activeOrder (tickSimulation approx_pow approx_sqrt 0.5 1400 sessionApp))
  = Some 0 /\
  option_map targetVolume
    (activeOrder (tickSimulation approx_pow approx_sqrt 0.5 1400 sessionApp))
  = option_map targetVolume (activeOrder sessionApp).
Proof.
  pose proof (tick_order_frame approx_pow approx_sqrt sessionApp
                Reachable_session 0.5 1400%Z) as [F [_ [W _]]].
  cbv zeta in F, W.
  destruct (activeOrder sessionApp) as [o |] eqn:E;
    [| vm_compute in E; discriminate E].
  destruct (activeOrder (tickSimulation approx_pow approx_sqrt 0.5 1400 sessionApp))
    as [o' |] eqn:E'; [| contradiction].
  cbn [option_map]. split.
  - f_equal. apply W. unfold heldOrders. rewrite E'. left. reflexivity.
  - f_equal. apply F.
Defined.

(** ** The properties at concrete inputs *)

Lemma bounds_preserved_witness :
  inBounds (systemState sessionApp) /\
  inBounds (systemState (tickSimulation approx_pow approx_sqrt 0.5 1400 sessionApp)) /\
  inBounds (systemState (startManualMove DirOPEN (setMode MANUAL sessionApp))).
Proof.
  assert (H : inBounds (systemState sessionApp)).
  { unfold inBounds. repeat split; q_eval. }
  destruct (bounds_preserved approx_pow approx_sqrt sessionApp H) as [T _].
  destruct (bounds_preserved approx_pow approx_sqrt (setMode MANUAL sessionApp) H)
    as [_ [M _]].
  split; [exact H |].
  split; [exact (T 0.5 1400%Z) | exact (M DirOPEN)].
Defined.

Lemma control_law_priority_witness :
  targetGateOpening
    (tickState approx_pow approx_sqrt AUTO defaultConfig None 0.5 1 highWater)
  = JS.min 100 (40 + (6.0 - 5.0) * 5).
Proof.
  destruct (control_law_priority approx_pow approx_sqrt AUTO defaultConfig None
              0.5 1%Z highWater) as (_ & H & _).
  apply H; reflexivity.
Defined.

Lemma gate_kinematics_witness :
  gateOpening
    (tickState approx_pow approx_sqrt AUTO defaultConfig None 0.5 1 highWater)
  = 40 + GATE_SPEED.
Proof.
  destruct (gate_kinematics approx_pow approx_sqrt AUTO defaultConfig None
              0.5 1%Z highWater) as (_ & _ & H & _).
  apply H; q_eval.
Defined.

Lemma gate_status_derivation_witness :
  gateStatus
    (tickState approx_pow approx_sqrt AUTO defaultConfig None 0.5 1 highWater)
  = OPENING.
Proof.
  destruct (gate_status_derivation approx_pow approx_sqrt AUTO defaultConfig None
              0.5 1%Z highWater) as (_ & H & _).
  apply H. q_eval.
Defined.

Lemma outflow_guarded_witness :
  let s' :=
    tickState approx_pow approx_sqrt AUTO defaultConfig None 0.5 1 highWater in
  outflowRate s' =
  (2 / 3) * 0.6 * 3.0 * approx_sqrt (2 * 9.81) *
  (approx_pow 6.0 1.5 -
   approx_pow (JS.max 0 (6.0 - gateOpening s' / 100 * (200 / 100))) 1.5).
Proof.
  destruct (outflow_guarded approx_pow approx_sqrt AUTO defaultConfig None
              0.5 1%Z highWater) as (_ & H & _).
  apply H; q_eval.
Defined.

(** The figures quoted for the control law and the gate status. *)

Example auto_opens_by_five :
  nextTargetGate AUTO defaultConfig None highWater == 45.
Proof. reflexivity. Qed.

Example increased_from_40_to_42 : determineStatus 40 42 = OPENING.
Proof. reflexivity. Qed.

Example unchanged_at_0 : determineStatus 0 0 = CLOSED.
Proof. reflexivity. Qed.

Example unchanged_at_100 : determineStatus 100 100 = OPEN.
Proof. reflexivity. Qed.

Example fifty_hectares :
  option_map targetVolume
    (activeOrder (handleStartOrder "Javlon Dehqon" 50 1000 1000 (initialApp 0)))
  = Some (50 * 1000).
Proof. reflexivity. Qed.

(** An order small enough for one tick: still ACTIVE after the tick, and
    moved to the last completed order by the next flush of the effects. *)
Example small_order_completes :
  let ticked :=
    run approx_pow approx_sqrt
      [StartOrder "Javlon Dehqon" 0.00001 1000 1000; Effects 1001; Tick 0.5 1200]
      (initialApp 0) in
  option_map status (activeOrder ticked) = Some ACTIVE /\
  activeOrder (flushEffects 1201 ticked) = None /\
  option_map status (lastCompletedOrder (flushEffects 1201 ticked))
    = Some COMPLETED /\
  option_map endTime (lastCompletedOrder (flushEffects 1201 ticked))
    = Some (Some 1201%Z).
Proof. vm_compute. repeat split. Qed.

(** * Further properties of the core *)

(** ** The gate on its way to a held target *)

Lemma moveGate_far_up gate target :
  GATE_SPEED <= JS.abs (gate - target) -> gate < target ->
  gate - target <= - GATE_SPEED.
Proof.
  intros H L. destruct (abs_cases (gate - target)) as [[A B] | [A B]];
    rewrite B in H; unfold GATE_SPEED in *; lra.
Qed.

Lemma moveGate_far_down gate target :
  GATE_SPEED <= JS.abs (gate - target) -> target <= gate ->
  GATE_SPEED <= gate - target.
Proof.
  intros H L. destruct (abs_cases (gate - target)) as [[A B] | [A B]];
    rewrite B in H; unfold GATE_SPEED in *; lra.
Qed.

Lemma ticks_nonneg (n : nat) : 0 <= inject_Z (Z.of_nat n).
Proof.
  change 0 with (inject_Z 0). rewrite <- Zle_Qle. apply Nat2Z.is_nonneg.
Qed.

Lemma ticks_succ (n : nat) :
  inject_Z (Z.of_nat (S n)) == inject_Z (Z.of_nat n) + 1.
Proof.
  rewrite Nat2Z.inj_succ. unfold Z.succ. rewrite inject_Z_plus. reflexivity.
Qed.

(** With the target held, a gate less than [n] steps of [GATE_SPEED] away
    from it is on it after [n] ticks. *)
Theorem chase_reaches :
  forall (n : nat) (gate target : Q),
    JS.abs (gate - target) < inject_Z (Z.of_nat n) * GATE_SPEED ->
    chase n gate target = target.
Proof.
  induction n as [| n IH]; intros gate target H.
  - exfalso. pose proof (Qabs_nonneg (gate - target)) as P.
    assert (Z0 : inject_Z (Z.of_nat 0) * GATE_SPEED == 0) by reflexivity.
    rewrite Z0 in H. unfold JS.abs in H. lra.
  - cbn [chase].
    destruct (Qlt_le_dec (JS.abs (gate - target)) GATE_SPEED) as [S | F].
    + rewrite (moveGate_snap _ _ S). cbn [fst]. apply chase_at_target.
    + pose proof (ticks_nonneg n) as N. rewrite ticks_succ in H.
      apply abs_lt in H.
      destruct (Qlt_le_dec gate target) as [L | L].
      * rewrite (moveGate_up _ _ F L). cbn [fst]. apply IH. apply abs_lt.
        pose proof (moveGate_far_up _ _ F L). unfold GATE_SPEED in *. lra.
      * rewrite (moveGate_down _ _ F L). cbn [fst]. apply IH. apply abs_lt.
        pose proof (moveGate_far_down _ _ F L). unfold GATE_SPEED in *. lra.
Qed.

Lemma chase_reaches_witness : chase 51 0 100 = 100.
Proof. apply chase_reaches. q_eval. Defined.

(** ** Motor power and gate motion *)

Lemma motorPower_active isMoving :
  motorPower isMoving = MOTOR_POWER_ACTIVE -> isMoving = true.
Proof. destruct isMoving; [reflexivity | discriminate]. Qed.

Lemma motorPower_standby isMoving :
  motorPower isMoving = MOTOR_POWER_STANDBY -> isMoving = false.
Proof. destruct isMoving; [discriminate | reflexivity]. Qed.

Lemma moveGate_moving gate target :
  snd (moveGate gate target) = true <-> GATE_SPEED <= JS.abs (gate - target).
Proof.
  destruct (Qlt_le_dec (JS.abs (gate - target)) GATE_SPEED) as [S | F].
  - rewrite (moveGate_snap _ _ S). cbn [snd]. split; [discriminate | lra].
  - destruct (Qlt_le_dec gate target) as [L | L].
    + rewrite (moveGate_up _ _ F L). cbn [snd]. tauto.
    + rewrite (moveGate_down _ _ F L). cbn [snd]. tauto.
Qed.

(** The tick draws [MOTOR_POWER_ACTIVE] exactly when the gate is a full
    step or more away from the new target; it then moves by exactly
    [GATE_SPEED] and the status is OPENING or CLOSING.  On
    [MOTOR_POWER_STANDBY] the gate ends on the target, which includes the
    last, shorter move onto it. *)
Theorem motor_power_follows_motion :
  forall (Math_pow : Q -> Q -> Q) (Math_sqrt : Q -> Q)
         (m : SystemMode) (cfg : SimulationConfig) (ref : option WateringOrder)
         (random : Q) (now : Z) (prev : SystemState),
    let s' := tickState Math_pow Math_sqrt m cfg ref random now prev in
    let gate := gateOpening prev in
    let target := targetGateOpening s' in
    (currentPower s' = MOTOR_POWER_ACTIVE <->
       GATE_SPEED <= JS.abs (gate - target)) /\
    (currentPower s' = MOTOR_POWER_ACTIVE ->
       JS.abs (gateOpening s' - gate) == GATE_SPEED /\
       (gateStatus s' = OPENING \/ gateStatus s' = CLOSING)) /\
    (currentPower s' = MOTOR_POWER_STANDBY -> gateOpening s' = target).
Proof.
  intros. unfold s'.
  rewrite tick_currentPower, tick_gateStatus, tick_gateOpening.
  fold s'. fold target. fold gate.
  assert (A : motorPower (snd (moveGate gate target)) = MOTOR_POWER_ACTIVE ->
              GATE_SPEED <= JS.abs (gate - target)).
  { intros P. apply moveGate_moving. now apply motorPower_active. }
  split; [| split].
  - split; [exact A |]. intros F. apply moveGate_moving in F. now rewrite F.
  - intros P. specialize (A P).
    destruct (Qlt_le_dec gate target) as [L | L].
    + rewrite (moveGate_up _ _ A L). cbn [fst]. split.
      * unfold JS.abs. rewrite Qabs_pos; unfold GATE_SPEED; lra.
      * left. unfold determineStatus.
        assert (G : JS.gt (gate + GATE_SPEED) gate = true)
          by (apply gt_true; unfold GATE_SPEED; lra).
        now rewrite G.
    + rewrite (moveGate_down _ _ A L). cbn [fst]. split.
      * unfold JS.abs. rewrite Qabs_neg; unfold GATE_SPEED; lra.
      * right. unfold determineStatus.
        assert (G : JS.gt (gate - GATE_SPEED) gate = false)
          by (apply gt_false; unfold GATE_SPEED; lra).
        assert (G' : JS.lt (gate - GATE_SPEED) gate = true)
          by (apply lt_true; unfold GATE_SPEED; lra).
        now rewrite G, G'.
  - intros P. apply motorPower_standby in P.
    destruct (Qlt_le_dec (JS.abs (gate - target)) GATE_SPEED) as [S | F].
    + now rewrite (moveGate_snap _ _ S).
    + apply moveGate_moving in F. congruence.
Qed.

Lemma motor_power_follows_motion_witness :
  let s' :=
    tickState approx_pow approx_sqrt AUTO defaultConfig None 0.5 1 highWater in
  JS.abs (gateOpening s' - 40) == GATE_SPEED /\
  (gateStatus s' = OPENING \/ gateStatus s' = CLOSING).
Proof.
  destruct (motor_power_follows_motion approx_pow approx_sqrt AUTO defaultConfig
              None 0.5 1%Z highWater) as (_ & H & _).
  apply H. reflexivity.
Defined.

(** The last move onto the target is made on standby power: from 41 to 42
    the status is OPENING and the power [MOTOR_POWER_STANDBY]. *)
Example last_move_on_standby :
  let s' :=
    tickState approx_pow approx_sqrt MANUAL defaultConfig None 0.5 1
      (withTarget 42 (mkSystemState 0 5.0 0.8 36.0 0.0 41 41 PARTIALLY_OPEN
                        false 0 MOTOR_POWER_STANDBY 0 0)) in
  gateOpening s' = 42 /\ gateStatus s' = OPENING /\
  currentPower s' = MOTOR_POWER_STANDBY.
Proof. repeat split. Qed.

(** While the tick sees an order the target is 100 and a gate within
    [0, 100] never moves down. *)
Theorem order_keeps_gate_rising :
  forall (Math_pow : Q -> Q -> Q) (Math_sqrt : Q -> Q)
         (m : SystemMode) (cfg : SimulationConfig) (ref : option WateringOrder)
         (random : Q) (now : Z) (prev : SystemState),
    ref <> None -> gateOpening prev <= 100 ->
    let s' := tickState Math_pow Math_sqrt m cfg ref random now prev in
    targetGateOpening s' = 100 /\
    gateOpening prev <= gateOpening s' <= 100 /\
    gateStatus s' <> CLOSING.
Proof.
  intros Math_pow Math_sqrt m cfg ref random now prev R G s'.
  assert (T : targetGateOpening s' = 100).
  { unfold s'. rewrite tick_targetGateOpening. unfold nextTargetGate.
    destruct ref; [reflexivity | congruence]. }
  assert (B : gateOpening prev <= gateOpening s' <= 100).
  { unfold s'. rewrite tick_gateOpening. fold s'. rewrite T.
    now apply (moveGate_between (gateOpening prev) 100). }
  split; [exact T | split; [exact B |]].
  unfold s'. rewrite tick_gateStatus. fold s'. unfold determineStatus.
  js_test (JS.gt (gateOpening s') (gateOpening prev)); [discriminate |].
  js_test (JS.lt (gateOpening s') (gateOpening prev)); [lra |].
  destruct (JS.eq (gateOpening s') 0); [discriminate |].
  destruct (JS.eq (gateOpening s') 100); discriminate.
Qed.

Lemma order_keeps_gate_rising_witness :
  targetGateOpening
    (systemState (tickSimulation approx_pow approx_sqrt 0.5 1400 sessionApp))
  = 100.
Proof.
  rewrite tickSimulation_systemState.
  apply (order_keeps_gate_rising approx_pow approx_sqrt).
  - vm_compute. discriminate.
  - q_eval.
Defined.

(** ** Manual jog *)

Lemma holdTimerFires_timer a : holdTimer (holdTimerFires a) = holdTimer a.
Proof.
  unfold holdTimerFires. destruct (holdTimer a) eqn:E; cbn; now rewrite ?E.
Qed.

Lemma holdFor_frame n : forall a,
  let a' := holdFor n a in
  mode a' = mode a /\ config a' = config a /\ holdTimer a' = holdTimer a /\
  activeOrder a' = activeOrder a /\ activeOrderRef a' = activeOrderRef a /\
  lastCompletedOrder a' = lastCompletedOrder a /\
  isSimulating a' = isSimulating a /\
  systemState a' =
    withTarget (targetGateOpening (systemState a')) (systemState a).
Proof.
  induction n as [| n IH]; intros a; cbn [holdFor].
  - repeat split. destruct (systemState a); reflexivity.
  - destruct (IH (holdTimerFires a)) as (M & C & T & A & R & L & I & S).
    cbn zeta. rewrite M, C, T, A, R, L, I, S.
    unfold holdTimerFires.
    destruct (holdTimer a) as [d |] eqn:E; cbn; rewrite ?E; repeat split.
Qed.

Lemma holdFor_open n : forall a,
  holdTimer a = Some DirOPEN ->
  targetGateOpening (systemState a) <= 100 ->
  targetGateOpening (systemState (holdFor n a)) ==
  JS.min 100 (targetGateOpening (systemState a) + 2 * inject_Z (Z.of_nat n)).
Proof.
  induction n as [| n IH]; intros a T B; cbn [holdFor].
  - destruct (min_cases 100 (targetGateOpening (systemState a)
                             + 2 * inject_Z (Z.of_nat 0))) as [[H E] | [H E]];
      rewrite E; change (inject_Z (Z.of_nat 0)) with 0 in *; lra.
  - pose proof (ticks_nonneg n) as N.
    assert (T1 : holdTimer (holdTimerFires a) = Some DirOPEN)
      by (now rewrite holdTimerFires_timer).
    assert (V : targetGateOpening (systemState (holdTimerFires a)) =
                JS.min 100 (targetGateOpening (systemState a) + 2)).
    { unfold holdTimerFires. rewrite T. reflexivity. }
    assert (B1 : targetGateOpening (systemState (holdTimerFires a)) <= 100).
    { rewrite V. destruct (min_cases 100 (targetGateOpening (systemState a) + 2))
        as [[H E] | [H E]]; rewrite E; lra. }
    rewrite (IH _ T1 B1), V, ticks_succ.
    set (t := targetGateOpening (systemState a)) in *.
    set (k := inject_Z (Z.of_nat n)) in *.
    destruct (min_cases 100 (t + 2)) as [[H1 E1] | [H1 E1]];
      destruct (min_cases 100 (JS.min 100 (t + 2) + 2 * k)) as [[H2 E2] | [H2 E2]];
      destruct (min_cases 100 (t + 2 * (k + 1))) as [[H3 E3] | [H3 E3]];
      rewrite E2, E3; lra.
Qed.

Lemma holdFor_close n : forall a,
  holdTimer a = Some DirCLOSE ->
  0 <= targetGateOpening (systemState a) ->
  targetGateOpening (systemState (holdFor n a)) ==
  JS.max 0 (targetGateOpening (systemState a) - 2 * inject_Z (Z.of_nat n)).
Proof.
  induction n as [| n IH]; intros a T B; cbn [holdFor].
  - destruct (max_cases 0 (targetGateOpening (systemState a)
                           - 2 * inject_Z (Z.of_nat 0))) as [[H E] | [H E]];
      rewrite E; change (inject_Z (Z.of_nat 0)) with 0 in *; lra.
  - pose proof (ticks_nonneg n) as N.
    assert (T1 : holdTimer (holdTimerFires a) = Some DirCLOSE)
      by (now rewrite holdTimerFires_timer).
    assert (V : targetGateOpening (systemState (holdTimerFires a)) =
                JS.max 0 (targetGateOpening (systemState a) - 2)).
    { unfold holdTimerFires. rewrite T. reflexivity. }
    assert (B1 : 0 <= targetGateOpening (systemState (holdTimerFires a))).
    { rewrite V. destruct (max_cases 0 (targetGateOpening (systemState a) - 2))
        as [[H E] | [H E]]; rewrite E; lra. }
    rewrite (IH _ T1 B1), V, ticks_succ.
    set (t := targetGateOpening (systemState a)) in *.
    set (k := inject_Z (Z.of_nat n)) in *.
    destruct (max_cases 0 (t - 2)) as [[H1 E1] | [H1 E1]];
      destruct (max_cases 0 (JS.max 0 (t - 2) - 2 * k)) as [[H2 E2] | [H2 E2]];
      destruct (max_cases 0 (t - 2 * (k + 1))) as [[H3 E3] | [H3 E3]];
      rewrite E2, E3; lra.
Qed.

(** In MANUAL mode a press followed by [n] firings of the repeat interval
    moves the target by [1 + 2 n] in the direction of the button, capped at
    100 when opening and floored at 0 when closing; the gate position and
    the rest of the telemetry are not touched. *)
Theorem press_and_hold :
  forall (a : App) (direction : Direction) (n : nat),
    mode a = MANUAL ->
    let t0 := targetGateOpening (systemState a) in
    let a' := holdFor n (startManualMove direction a) in
    targetGateOpening (systemState a') ==
      match direction with
      | DirOPEN => JS.min 100 (t0 + 1 + 2 * inject_Z (Z.of_nat n))
      | DirCLOSE => JS.max 0 (t0 - 1 - 2 * inject_Z (Z.of_nat n))
      end /\
    systemState a' = withTarget (targetGateOpening (systemState a')) (systemState a) /\
    holdTimer a' = Some direction.
Proof.
  intros a direction n M t0 a'.
  pose proof (holdFor_frame n (startManualMove direction a))
    as (_ & _ & T & _ & _ & _ & _ & S).
  cbn zeta in T, S. fold a' in T, S.
  assert (P : startManualMove direction a =
              setHoldTimer (Some direction)
                (setSystemState (initialMove direction) a)).
  { unfold startManualMove. now rewrite M. }
  split; [| split].
  - pose proof (ticks_nonneg n) as N. unfold a'. rewrite P.
    set (k := inject_Z (Z.of_nat n)) in *.
    destruct direction.
    + rewrite holdFor_open; [| reflexivity |].
      * cbn. fold t0. fold k.
        destruct (min_cases 100 (t0 + 1)) as [[H1 E1] | [H1 E1]];
          destruct (min_cases 100 (JS.min 100 (t0 + 1) + 2 * k)) as [[H2 E2] | [H2 E2]];
          destruct (min_cases 100 (t0 + 1 + 2 * k)) as [[H3 E3] | [H3 E3]];
          rewrite E2, E3; lra.
      * cbn. fold t0.
        destruct (min_cases 100 (t0 + 1)) as [[H1 E1] | [H1 E1]]; rewrite E1; lra.
    + rewrite holdFor_close; [| reflexivity |].
      * cbn. fold t0. fold k.
        destruct (max_cases 0 (t0 - 1)) as [[H1 E1] | [H1 E1]];
          destruct (max_cases 0 (JS.max 0 (t0 - 1) - 2 * k)) as [[H2 E2] | [H2 E2]];
          destruct (max_cases 0 (t0 - 1 - 2 * k)) as [[H3 E3] | [H3 E3]];
          rewrite E2, E3; lra.
      * cbn. fold t0.
        destruct (max_cases 0 (t0 - 1)) as [[H1 E1] | [H1 E1]]; rewrite E1; lra.
  - rewrite S. rewrite P. cbn. destruct (systemState a); reflexivity.
  - rewrite T, P. reflexivity.
Qed.

Lemma press_and_hold_witness :
  targetGateOpening
    (systemState (holdFor 3 (startManualMove DirOPEN (setMode MANUAL sessionApp))))
  == JS.min 100 (targetGateOpening (systemState sessionApp) + 1 + 2 * 3).
Proof.
  destruct (press_and_hold (setMode MANUAL sessionApp) DirOPEN 3 eq_refl)
    as (H & _).
  exact H.
Defined.

(** Outside MANUAL mode a press changes nothing and installs no repeat
    interval; and after a release no firing of the interval changes
    anything, however often it is tried. *)
Theorem jog_only_while_pressed_in_manual :
  forall (a : App) (direction : Direction) (n : nat),
    (mode a = AUTO -> startManualMove direction a = a) /\
    holdTimer (stopManualMove a) = None /\
    holdFor n (stopManualMove a) = stopManualMove a /\
    (holdTimer a = None -> holdFor n a = a).
Proof.
  intros a direction n.
  assert (K : forall k x, holdTimer x = None -> holdFor k x = x).
  { induction k as [| k IH]; intros x T; cbn [holdFor]; [reflexivity |].
    assert (F : holdTimerFires x = x) by (unfold holdTimerFires; now rewrite T).
    rewrite F. now apply IH. }
  assert (S : holdTimer (stopManualMove a) = None).
  { unfold stopManualMove. destruct (holdTimer a) eqn:E; [reflexivity | exact E]. }
  split; [| split; [exact S | split]].
  - intros M. unfold startManualMove. now rewrite M.
  - now apply K.
  - apply K.
Qed.

Lemma jog_only_while_pressed_in_manual_witness :
  startManualMove DirOPEN sessionApp = sessionApp /\
  holdFor 5 sessionApp = sessionApp.
Proof.
  destruct (jog_only_while_pressed_in_manual sessionApp DirOPEN 5)
    as (A & _ & _ & H).
  split; [apply A | apply H]; reflexivity.
Defined.

(** ** What the tick does not read *)

Lemma nextTargetGate_ignores_target m cfg ref t prev :
  m = AUTO \/ ref <> None ->
  nextTargetGate m cfg ref (withTarget t prev) = nextTargetGate m cfg ref prev.
Proof.
  intros H. unfold nextTargetGate. destruct ref; [reflexivity |].
  destruct H as [-> | H]; [reflexivity | congruence].
Qed.

Lemma tickState_ignores_target Math_pow Math_sqrt m cfg ref random now t prev :
  m = AUTO \/ ref <> None ->
  tickState Math_pow Math_sqrt m cfg ref random now (withTarget t prev) =
  tickState Math_pow Math_sqrt m cfg ref random now prev.
Proof.
  intros H. unfold tickState.
  rewrite (nextTargetGate_ignores_target m cfg ref t prev H). reflexivity.
Qed.

(** In AUTO mode, and in any mode while the tick sees an order, the target
    set by the manual buttons is not read: after any number of firings of
    the repeat interval the next tick yields the same state as without. *)
Theorem tick_overrides_jog :
  forall (Math_pow : Q -> Q -> Q) (Math_sqrt : Q -> Q)
         (a : App) (n : nat) (random : Q) (now : Z),
    mode a = AUTO \/ activeOrderRef a <> None ->
    systemState (tickSimulation Math_pow Math_sqrt random now (holdFor n a)) =
    systemState (tickSimulation Math_pow Math_sqrt random now a) /\
    activeOrder (tickSimulation Math_pow Math_sqrt random now (holdFor n a)) =
    activeOrder (tickSimulation Math_pow Math_sqrt random now a).
Proof.
  intros Math_pow Math_sqrt a n random now H.
  pose proof (holdFor_frame n a) as (M & C & _ & A & R & _ & _ & S).
  cbn zeta in *.
  assert (E : systemState
                (tickSimulation Math_pow Math_sqrt random now (holdFor n a)) =
              systemState (tickSimulation Math_pow Math_sqrt random now a)).
  { rewrite !tickSimulation_systemState, M, C, R, S.
    apply tickState_ignores_target. exact H. }
  split; [exact E |].
  rewrite !tickSimulation_activeOrder, E, C, R, A. reflexivity.
Qed.

Lemma tick_overrides_jog_witness :
  systemState
    (tickSimulation approx_pow approx_sqrt 0.5 1400
       (holdFor 4 (setHoldTimer (Some DirCLOSE) sessionApp))) =
  systemState
    (tickSimulation approx_pow approx_sqrt 0.5 1400
       (setHoldTimer (Some DirCLOSE) sessionApp)).
Proof.
  destruct (tick_overrides_jog approx_pow approx_sqrt
              (setHoldTimer (Some DirCLOSE) sessionApp) 4 0.5 1400%Z) as [H _].
  - left. reflexivity.
  - exact H.
Defined.

Lemma nextTargetGate_ignores_setpoint m c c' ref prev :
  m = MANUAL \/ ref <> None ->
  nextTargetGate m c ref prev = nextTargetGate m c' ref prev.
Proof.
  intros H. unfold nextTargetGate. destruct ref; [reflexivity |].
  destruct H as [-> | H]; [reflexivity | congruence].
Qed.

(** In MANUAL mode, and in any mode while the tick sees an order, the
    set-point is not read: moving the slider does not change what the next
    tick does to the state or to the order. *)
Theorem tick_ignores_setpoint :
  forall (Math_pow : Q -> Q -> Q) (Math_sqrt : Q -> Q)
         (a : App) (v : Q) (random : Q) (now : Z),
    mode a = MANUAL \/ activeOrderRef a <> None ->
    let moved := step Math_pow Math_sqrt (SetTargetLevel v) a in
    systemState (tickSimulation Math_pow Math_sqrt random now moved) =
    systemState (tickSimulation Math_pow Math_sqrt random now a) /\
    activeOrder (tickSimulation Math_pow Math_sqrt random now moved) =
    activeOrder (tickSimulation Math_pow Math_sqrt random now a).
Proof.
  intros Math_pow Math_sqrt a v random now H moved.
  assert (E : systemState (tickSimulation Math_pow Math_sqrt random now moved) =
              systemState (tickSimulation Math_pow Math_sqrt random now a)).
  { rewrite !tickSimulation_systemState. subst moved. cbn [step].
    cbn [mode config activeOrderRef systemState setConfig].
    unfold tickState.
    rewrite (nextTargetGate_ignores_setpoint (mode a)
               {| targetLevel := v; simulationSpeed := simulationSpeed (config a) |}
               (config a) (activeOrderRef a) (systemState a) H).
    reflexivity. }
  split; [exact E |].
  rewrite !tickSimulation_activeOrder, E. subst moved. reflexivity.
Qed.

Lemma tick_ignores_setpoint_witness :
  systemState
    (tickSimulation approx_pow approx_sqrt 0.5 1400
       (step approx_pow approx_sqrt (SetTargetLevel 9.0) sessionApp)) =
  systemState (tickSimulation approx_pow approx_sqrt 0.5 1400 sessionApp).
Proof.
  destruct (tick_ignores_setpoint approx_pow approx_sqrt sessionApp 9.0 0.5 1400%Z)
    as [H _].
  - right. vm_compute. discriminate.
  - exact H.
Defined.

(** ** The effects settle *)

Lemma flushEffects_mk now m i c s ao lo r h :
  flushEffects now (mkApp m i c s ao lo r h) =
  match ao with
  | Some o =>
      if JS.ge (deliveredVolume o) (targetVolume o)
         && OrderStatus_eqb (status o) ACTIVE
      then mkApp m i c s None (Some (completedOrder now o)) (Some o) h
      else mkApp m i c s (Some o) lo (Some o) h
  | None => mkApp m i c s None lo None h
  end.
Proof.
  unfold flushEffects, orderCompletionCheck, syncActiveOrderRef, setActiveOrderRef.
  cbn [mode isSimulating config systemState activeOrder lastCompletedOrder
         activeOrderRef holdTimer].
  destruct ao as [o |]; [| reflexivity].
  destruct (JS.ge (deliveredVolume o) (targetVolume o)
            && OrderStatus_eqb (status o) ACTIVE); reflexivity.
Qed.

(** One flush of the effects leaves in the ref the order that was in the
    slot before it, also when the completion check has just emptied the
    slot; after a second flush the ref and the slot agree, and from then on
    a flush changes nothing. *)
Theorem effects_settle :
  forall (a : App) (now1 now2 now3 : Z),
    let a1 := flushEffects now1 a in
    let a2 := flushEffects now2 a1 in
    activeOrderRef a1 = activeOrder a /\
    activeOrderRef a2 = activeOrder a2 /\
    lastCompletedOrder a2 = lastCompletedOrder a1 /\
    flushEffects now3 a2 = a2.
Proof.
  intros [m i c s ao lo r h] now1 now2 now3. cbv zeta.
  rewrite (flushEffects_mk now1).
  destruct ao as [o |].
  - destruct (JS.ge (deliveredVolume o) (targetVolume o)
              && OrderStatus_eqb (status o) ACTIVE) eqn:C.
    + rewrite (flushEffects_mk now2), (flushEffects_mk now3). repeat split.
    + rewrite (flushEffects_mk now2), C, (flushEffects_mk now3), C.
      repeat split.
  - rewrite (flushEffects_mk now2), (flushEffects_mk now3). repeat split.
Qed.

(** An order that is complete when the effects run is moved out of the
    slot, yet the ref still holds it until the effects run again. *)
Example ref_is_stale_after_completion :
  let ticked :=
    run approx_pow approx_sqrt
      [StartOrder "Javlon Dehqon" 0.00001 1000 1000; Effects 1001; Tick 0.5 1200]
      (initialApp 0) in
  activeOrder (flushEffects 1201 ticked) = None /\
  JS.truthy (activeOrderRef (flushEffects 1201 ticked)) = true /\
  activeOrderRef (flushEffects 1202 (flushEffects 1201 ticked)) = None.
Proof. vm_compute. repeat split. Qed.

(** ** Status, rain and order slots in the reachable states *)

Lemma determineStatus_ok before after :
  let st := determineStatus before after in
  (st = CLOSED -> after == 0) /\
  (st = OPEN -> after == 100) /\
  (st = PARTIALLY_OPEN -> ~ after == 0 /\ ~ after == 100).
Proof.
  cbn zeta. unfold determineStatus.
  destruct (JS.gt after before); [repeat split; discriminate |].
  destruct (JS.lt after before); [repeat split; discriminate |].
  destruct (JS.eq after 0) eqn:Z.
  { apply eq_true in Z. repeat split; try discriminate; auto. }
  destruct (JS.eq after 100) eqn:H.
  { apply eq_true in H. repeat split; try discriminate; auto. }
  repeat split; try discriminate; intros K; apply eq_true in K; congruence.
Qed.

Lemma tick_isRaining Math_pow Math_sqrt m cfg ref random now prev :
  isRaining (tickState Math_pow Math_sqrt m cfg ref random now prev) =
  isRaining prev.
Proof.
  unfold tickState.
  destruct (moveGate (gateOpening prev) (nextTargetGate m cfg ref prev)).
  reflexivity.
Qed.

Lemma tick_inflowRate Math_pow Math_sqrt m cfg ref random now prev :
  inflowRate (tickState Math_pow Math_sqrt m cfg ref random now prev) =
  currentInflow prev random.
Proof.
  unfold tickState.
  destruct (moveGate (gateOpening prev) (nextTargetGate m cfg ref prev)).
  reflexivity.
Qed.

Lemma tick_downstreamLevel Math_pow Math_sqrt m cfg ref random now prev :
  let s' := tickState Math_pow Math_sqrt m cfg ref random now prev in
  downstreamLevel s' = newDownstream prev (outflowRate s').
Proof.
  unfold tickState.
  destruct (moveGate (gateOpening prev) (nextTargetGate m cfg ref prev)).
  reflexivity.
Qed.

Lemma powerIncrement_nonneg cfg s' :
  simulationSpeed cfg = 200 -> 0 < currentPower s' ->
  0 <= powerIncrement cfg s'.
Proof.
  intros S P. unfold powerIncrement.
  change (dtSeconds cfg / 3600) with (dtHours cfg).
  apply energy_step; [rewrite S; discriminate | exact P].
Qed.

Lemma pendingShape_None : pendingShape None.
Proof. intros o H. discriminate. Qed.

Lemma pendingShape_progress dv dp curr :
  0 <= dp -> pendingShape curr -> pendingShape (orderProgress dv dp curr).
Proof.
  intros P H o' E. destruct curr as [o |]; cbn in E; [| discriminate].
  injection E as <-. cbn. destruct (H o eq_refl) as (T & N & C).
  repeat split; auto. lra.
Qed.

Lemma Inv2_initial now : Inv2 (initialApp now).
Proof.
  constructor; cbn; try reflexivity; try apply pendingShape_None.
  - unfold statusOk. cbn. repeat split; try discriminate; reflexivity.
  - intros o H. discriminate.
Qed.

Lemma Inv2_tick Math_pow Math_sqrt random now a :
  Inv2 a -> Inv2 (tickSimulation Math_pow Math_sqrt random now a).
Proof.
  intros [Hs Hr Ht Ha Hf Hl].
  pose proof (tickSimulation_frame Math_pow Math_sqrt random now a)
    as (Em & Ec & El & Er & Eh). cbn zeta in *.
  constructor.
  - now rewrite Ec.
  - rewrite tickSimulation_systemState, tick_isRaining. exact Hr.
  - rewrite tickSimulation_systemState. unfold statusOk.
    rewrite tick_gateStatus. apply determineStatus_ok.
  - rewrite tickSimulation_activeOrder.
    destruct (JS.truthy (activeOrderRef a)); [| exact Ha].
    apply pendingShape_progress; [| exact Ha].
    apply powerIncrement_nonneg; [exact Hs |].
    rewrite tickSimulation_systemState, tick_currentPower. apply motorPower_pos.
  - now rewrite Er.
  - now rewrite El.
Qed.

Lemma Inv2_flushEffects now a : Inv2 a -> Inv2 (flushEffects now a).
Proof.
  intros [Hs Hr Ht Ha Hf Hl]. unfold flushEffects, orderCompletionCheck.
  cbn [activeOrder syncActiveOrderRef setActiveOrderRef].
  destruct (activeOrder a) as [o |] eqn:E.
  - destruct (JS.ge (deliveredVolume o) (targetVolume o)
              && OrderStatus_eqb (status o) ACTIVE) eqn:C.
    + constructor; cbn; rewrite ?E; auto using pendingShape_None.
      intros o' H. injection H as <-. cbn.
      apply andb_true_iff in C. destruct C as [C _]. apply ge_true in C.
      destruct (Ha o eq_refl) as (T & N & P).
      repeat split; auto. discriminate.
    + constructor; cbn; rewrite ?E; auto.
  - constructor; cbn; rewrite ?E; auto.
Qed.

Lemma Inv2_step Math_pow Math_sqrt e a :
  Inv2 a -> Inv2 (step Math_pow Math_sqrt e a).
Proof.
  intros H. destruct e; cbn [step].
  - destruct (isSimulating a); [now apply Inv2_tick | exact H].
  - destruct H as [Hs Hr Ht Ha Hf Hl]. unfold startManualMove.
    destruct (mode a); constructor; cbn; auto.
  - destruct H as [Hs Hr Ht Ha Hf Hl]. unfold stopManualMove.
    destruct (holdTimer a); constructor; cbn; auto.
  - destruct H as [Hs Hr Ht Ha Hf Hl]. unfold holdTimerFires.
    destruct (holdTimer a); constructor; cbn; auto.
  - destruct H as [Hs Hr Ht Ha Hf Hl]. constructor; cbn; auto.
    intros o E. injection E as <-. cbn. repeat split. discriminate.
  - destruct H as [Hs Hr Ht Ha Hf Hl]. constructor; cbn;
      auto using pendingShape_None.
  - destruct H as [Hs Hr Ht Ha Hf Hl]. constructor; cbn; auto.
  - destruct H as [Hs Hr Ht Ha Hf Hl]. constructor; cbn; auto.
  - now apply Inv2_flushEffects.
Qed.

Lemma Reachable_Inv2 Math_pow Math_sqrt a :
  Reachable Math_pow Math_sqrt a -> Inv2 a.
Proof.
  induction 1 as [now | e a R IH].
  - apply Inv2_initial.
  - now apply Inv2_step.
Qed.

(** In every state of a session the gate status agrees with the gate
    position: CLOSED only at 0, OPEN only at 100, PARTIALLY OPEN only
    strictly between; the manual buttons, which move the target only, do
    not break this. *)
Theorem status_agrees_with_position :
  forall (Math_pow : Q -> Q -> Q) (Math_sqrt : Q -> Q) (a : App),
    Reachable Math_pow Math_sqrt a ->
    let s := systemState a in
    (gateStatus s = CLOSED -> gateOpening s == 0) /\
    (gateStatus s = OPEN -> gateOpening s == 100) /\
    (gateStatus s = PARTIALLY_OPEN -> 0 < gateOpening s < 100).
Proof.
  intros Math_pow Math_sqrt a R s.
  pose proof (inv2_status a (Reachable_Inv2 _ _ a R)) as (C & O & P).
  pose proof (inv_bounds a (Reachable_Inv _ _ a R)) as (_ & B & _).
  fold s in C, O, P, B.
  split; [exact C | split; [exact O |]].
  intros H. destruct (P H) as [N0 N100].
  split.
  - destruct (Qlt_le_dec 0 (gateOpening s)) as [L | L]; [exact L |].
    exfalso. apply N0. lra.
  - destruct (Qlt_le_dec (gateOpening s) 100) as [L | L]; [exact L |].
    exfalso. apply N100. lra.
Qed.

Lemma status_agrees_with_position_witness :
  gateStatus (systemState (initialApp 0)) = CLOSED /\
  gateOpening (systemState (initialApp 0)) == 0.
Proof.
  destruct (status_agrees_with_position approx_pow approx_sqrt (initialApp 0)
              (reach_init approx_pow approx_sqrt 0%Z)) as (C & _).
  split; [reflexivity | apply C; reflexivity].
Defined.

(** In every state of a session an order in the active slot or in the ref
    is ACTIVE, has no [endTime] and [targetVolume = hectares * 1000]; the
    last completed order is COMPLETED, has its [endTime] stamped, the same
    [targetVolume] and at least that volume delivered. *)
Theorem order_slots_shape :
  forall (Math_pow : Q -> Q -> Q) (Math_sqrt : Q -> Q) (a : App),
    Reachable Math_pow Math_sqrt a ->
    (forall o, activeOrder a = Some o \/ activeOrderRef a = Some o ->
       status o = ACTIVE /\ endTime o = None /\
       targetVolume o = hectares o * 1000 /\ 0 <= powerConsumed o) /\
    (forall o, lastCompletedOrder a = Some o ->
       status o = COMPLETED /\ endTime o <> None /\
       targetVolume o = hectares o * 1000 /\
       targetVolume o <= deliveredVolume o /\ 0 <= powerConsumed o).
Proof.
  intros Math_pow Math_sqrt a R.
  pose proof (Reachable_Inv2 _ _ a R) as [_ _ _ Ha Hf Hl].
  pose proof (Reachable_Inv _ _ a R) as [_ _ _ Ia If _].
  split.
  - intros o [E | E].
    + destruct (Ha o E) as (T & N & P). destruct (Ia o E) as [S _]. tauto.
    + destruct (Hf o E) as (T & N & P). destruct (If o E) as [S _]. tauto.
  - intros o E. destruct (Hl o E) as (S & T & D & N & P). tauto.
Qed.

Lemma order_slots_shape_witness :
  match activeOrder sessionApp with
  | Some o => status o = ACTIVE /\ targetVolume o = hectares o * 1000
  | None => False
  end.
Proof.
  destruct (order_slots_shape approx_pow approx_sqrt sessionApp Reachable_session)
    as [A _].
  destruct (activeOrder sessionApp) as [o |] eqn:E;
    [| vm_compute in E; discriminate E].
  destruct (A o (or_introl eq_refl)) as (S & _ & T & _). split; assumption.
Defined.

(** For the last completed order of a session the report never bills less
    water than the modal announced when the order was placed: the water
    cost of the PDF is at least "Est. Water Cost" for the same hectares,
    the volume announced is the target volume, and the total due at the
    rate of the application is at least the water cost. *)
Theorem report_covers_estimate :
  forall (Math_pow : Q -> Q -> Q) (Math_sqrt : Q -> Q) (a : App) (o : WateringOrder),
    Reachable Math_pow Math_sqrt a ->
    lastCompletedOrder a = Some o ->
    modalVolumeRequired (hectares o) == targetVolume o /\
    modalWaterCost (hectares o) <= pdfWaterCost o /\
    pdfWaterCost o <= pdfTotalCost ELEC_RATE_UZS o.
Proof.
  intros Math_pow Math_sqrt a o R E.
  pose proof (Reachable_Inv2 _ _ a R) as [_ _ _ _ _ Hl].
  destruct (Hl o E) as (_ & T & D & _ & P).
  unfold modalVolumeRequired, modalWaterCost, pdfTotalCost, pdfWaterCost,
    pdfPowerCost, WATER_RATE_PER_HA, WATER_COST_PER_M3, ELEC_RATE_UZS.
  rewrite T in *. repeat split; lra.
Qed.

Lemma report_covers_estimate_witness :
  match
    lastCompletedOrder
      (run approx_pow approx_sqrt
         [StartOrder "Javlon Dehqon" 0.00001 1000 1000; Effects 1001;
          Tick 0.5 1200; Effects 1201]
         (initialApp 0))
  with
  | Some o => modalWaterCost (hectares o) <= pdfWaterCost o
  | None => False
  end.
Proof.
  set (done := run approx_pow approx_sqrt _ (initialApp 0)).
  assert (R : Reachable approx_pow approx_sqrt done)
    by (apply Reachable_run; constructor).
  destruct (lastCompletedOrder done) as [o |] eqn:E;
    [| vm_compute in E; discriminate E].
  destruct (report_covers_estimate approx_pow approx_sqrt done o R E)
    as (_ & H & _).
  exact H.
Defined.

(** ** Inflow *)

(** No event of a session sets [isRaining], so rain never enters the inflow:
    for [Math.random()] in [0, 1) the inflow of every tick lies in [35, 37);
    whatever the state, it is not negative. *)
Theorem inflow_range :
  forall (Math_pow : Q -> Q -> Q) (Math_sqrt : Q -> Q) (a : App),
    Reachable Math_pow Math_sqrt a ->
    forall (random : Q) (now : Z),
      0 <= random < 1 ->
      let s' := systemState (tickSimulation Math_pow Math_sqrt random now a) in
      isRaining (systemState a) = false /\
      inflowRate s' == 36 + (random - 0.5) * 2 /\
      35 <= inflowRate s' < 37.
Proof.
  intros Math_pow Math_sqrt a R random now [R0 R1] s'.
  pose proof (inv2_rain a (Reachable_Inv2 _ _ a R)) as Hr.
  assert (E : inflowRate s' == 36 + (random - 0.5) * 2).
  { subst s'. rewrite tickSimulation_systemState, tick_inflowRate.
    unfold currentInflow. rewrite Hr.
    destruct (max_cases 0 (36.0 + 0 + (random - 0.5) * 2)) as [[H K] | [H K]];
      rewrite K; lra. }
  split; [exact Hr | split; [exact E |]]. rewrite E. lra.
Qed.

Lemma inflow_range_witness :
  35 <= inflowRate
          (systemState (tickSimulation approx_pow approx_sqrt 0.25 1400 sessionApp))
     < 37.
Proof.
  apply (inflow_range approx_pow approx_sqrt sessionApp Reachable_session
           0.25 1400%Z).
  split; q_eval.
Defined.

(** ** Order accounting against the meters of the state *)



(** An order for [h > 0] hectares, once the effects have run, makes the
    next tick command the gate fully open in either mode and books the
    outflow of that tick on the order. *)
Theorem started_order_opens_gate :
  forall (Math_pow : Q -> Q -> Q) (Math_sqrt : Q -> Q)
         (a : App) (name : string) (h : Q) (nowId nowStart now now' : Z)
         (random : Q),
    0 < h -> isSimulating a = true ->
    let a' :=
      run Math_pow Math_sqrt
        [StartOrder name h nowId nowStart; Effects now; Tick random now'] a in
    targetGateOpening (systemState a') = 100 /\
    exists o,
      activeOrder a' = Some o /\ status o = ACTIVE /\
      targetVolume o = h * 1000 /\
      deliveredVolume o = 0 + outflowRate (systemState a') * dtSeconds (config a).
Proof.
  intros Math_pow Math_sqrt a name h nowId nowStart now now' random Hh Hs a'.
  subst a'. cbn [run step].
  set (a1 := handleStartOrder name h nowId nowStart a).
  destruct (flushEffects_pending now a1 _
              (handleStartOrder_fresh name h nowId nowStart a)) as (A & B & _);
    [cbn; lra |].
  set (a2 := flushEffects now a1) in *.
  assert (I : isSimulating a2 = true).
  { subst a2 a1. unfold flushEffects, orderCompletionCheck.
    cbn [activeOrder syncActiveOrderRef setActiveOrderRef handleStartOrder
           setActiveOrder].
    destruct (JS.ge _ _ && _); cbn; exact Hs. }
  assert (C : config a2 = config a).
  { subst a2 a1. unfold flushEffects, orderCompletionCheck.
    cbn [activeOrder syncActiveOrderRef setActiveOrderRef handleStartOrder
           setActiveOrder].
    destruct (JS.ge _ _ && _); reflexivity. }
  rewrite I. split.
  - rewrite tickSimulation_systemState, tick_targetGateOpening.
    unfold nextTargetGate. now rewrite B.
  - assert (R : activeOrderRef a2 <> None) by (rewrite B; discriminate).
    destruct (tick_accumulates Math_pow Math_sqrt random now' a2 _ A R)
      as (o' & E' & D & _ & F).
    exists o'. unfold sameOrderButProgress in F.
    cbn [targetVolume status deliveredVolume] in F, D.
    destruct F as (_ & _ & _ & T & _ & S & _).
    rewrite C in D. repeat split; assumption.
Qed.

Lemma started_order_opens_gate_witness :
  targetGateOpening
    (systemState
       (run approx_pow approx_sqrt
          [StartOrder "Javlon Dehqon" 50 1000 1000; Effects 1001; Tick 0.5 1200]
          (initialApp 0))) = 100.
Proof.
  apply (started_order_opens_gate approx_pow approx_sqrt (initialApp 0)
           "Javlon Dehqon" 50 1000%Z 1000%Z 1001%Z 1200%Z 0.5);
    reflexivity.
Defined.

(** ** Water balance *)

(** Clamping never amplifies a change of level: from a level within
    [0, MAX_WATER_LEVEL] the level moves by at most the size of
    [dH = (inflow - outflow) / RESERVOIR_AREA * dtSeconds], in its
    direction, and by exactly [dH] when that does not leave the range. *)
Theorem level_change_bounded :
  forall (Math_pow : Q -> Q -> Q) (Math_sqrt : Q -> Q)
         (m : SystemMode) (cfg : SimulationConfig) (ref : option WateringOrder)
         (random : Q) (now : Z) (prev : SystemState),
    0 <= waterLevel prev <= MAX_WATER_LEVEL ->
    let s' := tickState Math_pow Math_sqrt m cfg ref random now prev in
    let dH := (inflowRate s' - outflowRate s') / RESERVOIR_AREA * dtSeconds cfg in
    JS.abs (waterLevel s' - waterLevel prev) <= JS.abs dH /\
    (0 <= dH -> waterLevel prev <= waterLevel s') /\
    (dH <= 0 -> waterLevel s' <= waterLevel prev) /\
    (0 <= waterLevel prev + dH <= MAX_WATER_LEVEL ->
       waterLevel s' == waterLevel prev + dH).
Proof.
  intros Math_pow Math_sqrt m cfg ref random now prev B s' dH.
  assert (E : waterLevel s' =
              JS.min MAX_WATER_LEVEL (JS.max 0 (waterLevel prev + dH))).
  { unfold s'. rewrite tick_waterLevel. reflexivity. }
  rewrite E. clearbody dH. clear E. unfold MAX_WATER_LEVEL in *.
  set (w := waterLevel prev) in *.
  destruct (max_cases 0 (w + dH)) as [[H1 E1] | [H1 E1]];
    destruct (min_cases 12.0 (JS.max 0 (w + dH))) as [[H2 E2] | [H2 E2]];
    destruct (abs_cases dH) as [[H3 E3] | [H3 E3]];
    rewrite E2, E3; repeat split; intros; try lra; apply abs_le; lra.
Qed.

Lemma level_change_bounded_witness :
  let s' :=
    tickState approx_pow approx_sqrt AUTO defaultConfig None 0.5 1 highWater in
  JS.abs (waterLevel s' - 6.0) <=
  JS.abs ((inflowRate s' - outflowRate s') / RESERVOIR_AREA * dtSeconds defaultConfig).
Proof.
  apply (level_change_bounded approx_pow approx_sqrt AUTO defaultConfig None
           0.5 1%Z highWater).
  split; q_eval.
Defined.

Section FlowFacts.

Variable Math_pow : Q -> Q -> Q.
Variable Math_sqrt : Q -> Q.
Hypothesis pow_monotone : powMonotone Math_pow.
Hypothesis sqrt_nonneg : sqrtNonneg Math_sqrt.

Lemma currentOutflow_nonneg prev nextGateOpening :
  0 <= currentOutflow Math_pow Math_sqrt prev nextGateOpening.
Proof.
  unfold currentOutflow.
  destruct (outflowGuard prev nextGateOpening) eqn:G; [| lra].
  apply outflowGuard_true in G. destruct G as [G1 G2]. cbn zeta.
  assert (P : Math_pow (h1 prev nextGateOpening) 1.5 <= Math_pow (h2 prev) 1.5).
  { apply pow_monotone; [apply h1_nonneg |]. unfold h1, h2.
    destruct (max_cases 0 (waterLevel prev - currentGateHeightM nextGateOpening))
      as [[H E] | [H E]]; rewrite E; lra. }
  pose proof (sqrt_nonneg (2 * g)) as S.
  apply Qmult_le_0_compat; [| lra].
  apply Qmult_le_0_compat; [| exact S].
  q_eval.
Qed.

Lemma newDownstream_base prev outflow :
  0.5 <= downstreamLevel prev -> 0 <= outflow ->
  0.5 <= newDownstream prev outflow.
Proof. intros D O. unfold newDownstream. lra. Qed.

Lemma FlowInv_tick random now a :
  0 <= simulationSpeed (config a) -> FlowInv a ->
  FlowInv (tickSimulation Math_pow Math_sqrt random now a).
Proof.
  intros Hs [Ho Hd Ha].
  assert (O : 0 <= outflowRate
                     (systemState (tickSimulation Math_pow Math_sqrt random now a))).
  { rewrite tickSimulation_systemState, tick_outflowRate.
    apply currentOutflow_nonneg. }
  constructor.
  - exact O.
  - rewrite tickSimulation_systemState.
    rewrite tick_downstreamLevel. apply newDownstream_base; [exact Hd |].
    rewrite tickSimulation_systemState in O. exact O.
  - intros o' E'. rewrite tickSimulation_activeOrder in E'.
    destruct (JS.truthy (activeOrderRef a)); [| now apply Ha].
    destruct (activeOrder a) as [o |]; cbn [orderProgress] in E'; [| discriminate].
    injection E' as <-. cbn [deliveredVolume]. specialize (Ha o eq_refl).
    assert (V : 0 <= volumeIncrement (config a)
                       (systemState (tickSimulation Math_pow Math_sqrt random now a))).
    { unfold volumeIncrement, dtSeconds. apply Qmult_le_0_compat; [exact O |].
      apply Qle_shift_div_l; [reflexivity | lra]. }
    rewrite tickSimulation_systemState in V. lra.
Qed.

Lemma FlowInv_flushEffects now a : FlowInv a -> FlowInv (flushEffects now a).
Proof.
  destruct a as [m i c s ao lo r h]. intros [Ho Hd Ha].
  rewrite flushEffects_mk.
  destruct ao as [o |]; [destruct (JS.ge _ _ && _) |]; constructor; cbn;
    auto; intros x E; discriminate.
Qed.

Lemma FlowInv_step e a :
  Inv a -> FlowInv a -> FlowInv (step Math_pow Math_sqrt e a).
Proof.
  intros I H. destruct e; cbn [step].
  - destruct (isSimulating a); [| exact H].
    apply FlowInv_tick; [| exact H]. rewrite (inv_speed a I). discriminate.
  - destruct H as [Ho Hd Ha]. unfold startManualMove.
    destruct (mode a); constructor; cbn; auto.
  - destruct H as [Ho Hd Ha]. unfold stopManualMove.
    destruct (holdTimer a); constructor; cbn; auto.
  - destruct H as [Ho Hd Ha]. unfold holdTimerFires.
    destruct (holdTimer a); constructor; cbn; auto.
  - destruct H as [Ho Hd Ha]. constructor; cbn; auto.
    intros o E. injection E as <-. cbn. lra.
  - destruct H as [Ho Hd Ha]. constructor; cbn; auto.
    intros o E. discriminate.
  - destruct H as [Ho Hd Ha]. constructor; cbn; auto.
  - destruct H as [Ho Hd Ha]. constructor; cbn; auto.
  - now apply FlowInv_flushEffects.
Qed.

Lemma Reachable_FlowInv a : Reachable Math_pow Math_sqrt a -> FlowInv a.
Proof.
  induction 1 as [now | e a R IH].
  - constructor; cbn; try lra. intros o E. discriminate.
  - apply FlowInv_step; [now apply (Reachable_Inv Math_pow Math_sqrt) | exact IH].
Qed.

End FlowFacts.

Lemma half_le (x y : Q) : x <= y -> x / 2 <= y / 2.
Proof.
  intros H. unfold Qdiv. apply Qmult_le_compat_r; [exact H | q_eval].
Qed.

Lemma half_nonneg (x : Q) : 0 <= x -> 0 <= x / 2.
Proof. intros H. apply Qle_shift_div_l; [reflexivity | lra]. Qed.

Lemma coarse_sqrt_nonneg : sqrtNonneg coarse_sqrt.
Proof.
  intros x. unfold coarse_sqrt. js_test (JS.gt x 0); [| lra].
  apply half_nonneg. lra.
Qed.

Lemma coarse_pow_monotone : powMonotone coarse_pow.
Proof.
  intros x y Hx Hxy. unfold coarse_pow, coarse_sqrt.
  js_test (JS.gt x 0); js_test (JS.gt y 0).
  - apply Qmult_le_compat_nonneg; split; try lra.
    + apply half_nonneg. lra.
    + apply half_le. lra.
  - lra.
  - assert (A : 0 <= y * ((1 + y) / 2)).
    { apply Qmult_le_0_compat; [lra | apply half_nonneg; lra]. }
    lra.
  - lra.
Qed.

(** If the power 1.5 does not decrease on non-negative numbers and square
    roots are not negative, no tick has a negative outflow: the level rises
    by at most the inflow over the tick period, and the volume delivered on
    an order does not go down, for every non-negative tick period. *)
Theorem outflow_never_negative :
  forall (Math_pow : Q -> Q -> Q) (Math_sqrt : Q -> Q),
    powMonotone Math_pow -> sqrtNonneg Math_sqrt ->
    forall (a : App) (random : Q) (now : Z),
      0 <= simulationSpeed (config a) ->
      0 <= waterLevel (systemState a) ->
      let a' := tickSimulation Math_pow Math_sqrt random now a in
      0 <= outflowRate (systemState a') /\
      waterLevel (systemState a') <=
        waterLevel (systemState a) +
        inflowRate (systemState a') / RESERVOIR_AREA * dtSeconds (config a) /\
      (forall o o',
         activeOrder a = Some o -> activeOrder a' = Some o' ->
         deliveredVolume o <= deliveredVolume o').
Proof.
  intros Math_pow Math_sqrt Hp Hq a random now Hs Hw a'.
  assert (O : 0 <= outflowRate (systemState a')).
  { unfold a'. rewrite tickSimulation_systemState, tick_outflowRate.
    now apply currentOutflow_nonneg. }
  assert (D : 0 <= dtSeconds (config a)).
  { unfold dtSeconds. apply Qle_shift_div_l; [reflexivity | lra]. }
  split; [exact O | split].
  - assert (I : 0 <= inflowRate (systemState a')).
    { unfold a'. rewrite tickSimulation_systemState, tick_inflowRate.
      unfold currentInflow. cbn zeta.
      match goal with |- 0 <= JS.max 0 ?x =>
        destruct (max_cases 0 x) as [[H E] | [H E]]; rewrite E; lra end. }
    assert (E : waterLevel (systemState a') =
                newLevel (config a) (systemState a)
                  (inflowRate (systemState a')) (outflowRate (systemState a'))).
    { unfold a'. rewrite tickSimulation_systemState. apply tick_waterLevel. }
    rewrite E. unfold newLevel, RESERVOIR_AREA. cbn zeta.
    set (w := waterLevel (systemState a)) in *.
    set (i := inflowRate (systemState a')) in *.
    set (o := outflowRate (systemState a')) in *.
    set (d := dtSeconds (config a)) in *.
    assert (P : 0 <= i / 1000 * d).
    { apply Qmult_le_0_compat; [| exact D].
      apply Qle_shift_div_l; [reflexivity | lra]. }
    assert (M : (i - o) / 1000 * d <= i / 1000 * d).
    { assert (K : 0 <= o / 1000 * d).
      { apply Qmult_le_0_compat; [| exact D].
        apply Qle_shift_div_l; [reflexivity | lra]. }
      assert (R : (i - o) / 1000 * d == i / 1000 * d - o / 1000 * d) by field.
      rewrite R. lra. }
    destruct (max_cases 0 (w + (i - o) / 1000 * d)) as [[H1 E1] | [H1 E1]];
      destruct (min_cases MAX_WATER_LEVEL (JS.max 0 (w + (i - o) / 1000 * d)))
        as [[H2 E2] | [H2 E2]];
      rewrite E2; unfold MAX_WATER_LEVEL in *; lra.
  - intros o o' E E'. unfold a' in E'. rewrite tickSimulation_activeOrder, E in E'.
    destruct (JS.truthy (activeOrderRef a)).
    + cbn [orderProgress] in E'. injection E' as <-. cbn [deliveredVolume].
      fold a'.
      assert (V : 0 <= volumeIncrement (config a) (systemState a')).
      { unfold volumeIncrement. now apply Qmult_le_0_compat. }
      unfold a' in V. rewrite tickSimulation_systemState in V. lra.
    + injection E' as <-. lra.
Qed.

Lemma outflow_never_negative_witness :
  0 <= outflowRate
         (systemState (tickSimulation coarse_pow coarse_sqrt 0.5 1400 sessionApp)).
Proof.
  assert (S : 0 <= simulationSpeed (config sessionApp)) by q_eval.
  assert (W : 0 <= waterLevel (systemState sessionApp)) by q_eval.
  destruct (outflow_never_negative coarse_pow coarse_sqrt
              coarse_pow_monotone coarse_sqrt_nonneg sessionApp 0.5 1400%Z S W)
    as [O _].
  exact O.
Defined.

(** Under the same two assumptions, in every state of a session the outflow
    is not negative, the downstream level is at least its base level 0.5
    and the volume delivered on the active order is not negative. *)
Theorem flows_stay_physical :
  forall (Math_pow : Q -> Q -> Q) (Math_sqrt : Q -> Q),
    powMonotone Math_pow -> sqrtNonneg Math_sqrt ->
    forall (a : App),
      Reachable Math_pow Math_sqrt a ->
      0 <= outflowRate (systemState a) /\
      0.5 <= downstreamLevel (systemState a) /\
      (forall o, activeOrder a = Some o -> 0 <= deliveredVolume o).
Proof.
  intros Math_pow Math_sqrt Hp Hq a R.
  destruct (Reachable_FlowInv Math_pow Math_sqrt Hp Hq a R) as [O D A].
  split; [exact O | split; [exact D | exact A]].
Qed.

Lemma flows_stay_physical_witness :
  let a :=
    run coarse_pow coarse_sqrt
      [StartOrder "Javlon Dehqon" 50 1000 1000; Effects 1001; Tick 0.5 1200]
      (initialApp 0) in
  0.5 <= downstreamLevel (systemState a).
Proof.
  intros a.
  destruct (flows_stay_physical coarse_pow coarse_sqrt
              coarse_pow_monotone coarse_sqrt_nonneg a) as (_ & D & _).
  - apply Reachable_run. constructor.
  - exact D.
Defined.

(** * Properties of the presentation *)

(** ** Alert level *)

Lemma alertLevel_cases (w : Q) :
  (CRITICAL_THRESHOLD <= w /\ alertLevel w = CRITICAL /\
   badgeText w = "CRITICAL"%string) \/
  (WARNING_THRESHOLD <= w < CRITICAL_THRESHOLD /\ alertLevel w = WARNING /\
   badgeText w = "WARNING"%string) \/
  (w < WARNING_THRESHOLD /\ alertLevel w = NORMAL /\
   badgeText w = "NORMAL"%string).
Proof.
  unfold alertLevel, badgeText.
  js_test (JS.ge w CRITICAL_THRESHOLD); [left; auto |].
  js_test (JS.ge w WARNING_THRESHOLD); [right; left; auto | right; right; auto].
Qed.

(** The alert level never drops when the water level rises; it is CRITICAL
    from 9.5 m, WARNING from 8.0 m up to there and NORMAL below, and the
    badge of the header shows the name of the level given to the
    visualizer. *)
Theorem alert_level_monotone :
  forall (w1 w2 : Q),
    w1 <= w2 ->
    (severity (alertLevel w1) <= severity (alertLevel w2))%nat /\
    (alertLevel w1 = CRITICAL <-> 9.5 <= w1) /\
    (alertLevel w1 = WARNING <-> 8.0 <= w1 < 9.5) /\
    (alertLevel w1 = NORMAL <-> w1 < 8.0) /\
    badgeText w1 = AlertLevel_value (alertLevel w1).
Proof.
  intros w1 w2 H.
  destruct (alertLevel_cases w1) as [(A & -> & ->) | [(A & -> & ->) | (A & -> & ->)]];
    destruct (alertLevel_cases w2) as [(B & -> & _) | [(B & -> & _) | (B & -> & _)]];
    unfold CRITICAL_THRESHOLD, WARNING_THRESHOLD in *; cbn [severity AlertLevel_value];
    repeat split; intros; try discriminate; try reflexivity; try lia; try lra.
Qed.

Lemma alert_level_monotone_witness :
  (severity (alertLevel 5.0) <= severity (alertLevel 9.7))%nat /\
  alertLevel 9.7 = CRITICAL.
Proof.
  assert (H : 5.0 <= 9.7) by q_eval.
  destruct (alert_level_monotone 5.0 9.7 H) as (S & _).
  split; [exact S | reflexivity].
Defined.

(** ** The drawing *)

Lemma visual_gate_scale (gateOpening : Q) :
  DamVisualizer.gateTravelPx gateOpening == gateOpening * (44 # 100) /\
  DamVisualizer.currentOpeningCm gateOpening == gateOpening * 2 /\
  currentGateHeightM gateOpening == gateOpening * (2 # 100).
Proof.
  unfold DamVisualizer.gateTravelPx, DamVisualizer.currentOpeningCm,
    DamVisualizer.GATE_HEIGHT_PX, DamVisualizer.MAX_GATE_HEIGHT_CM,
    DamVisualizer.PIXELS_PER_METER, currentGateHeightM, MAX_GATE_HEIGHT_M,
    MAX_GATE_HEIGHT_CM.
  repeat split; field.
Qed.

(** For a state within its bounds the drawing is to scale and inside the
    wall: the water surface lies between the ground line and the 12 m tick
    of the ruler, below the top of the dam, at [PIXELS_PER_METER] per metre
    without clipping; the gate travels between 0 and the height of the hole;
    and the opening shown in centimetres and the travel in pixels are the
    gate height in metres used by the outflow formula, times 100 and times
    [PIXELS_PER_METER]. *)
Theorem drawing_matches_physics :
  forall (s : SystemState),
    inBounds s ->
    let y := DamVisualizer.waterSurfaceY (waterLevel s) in
    DamVisualizer.waterHeightPx (waterLevel s) ==
      waterLevel s * DamVisualizer.PIXELS_PER_METER /\
    DamVisualizer.rulerTickY 12 <= y <= DamVisualizer.UPSTREAM_GROUND_Y /\
    DamVisualizer.DAM_TOP_Y < y /\
    0 <= DamVisualizer.gateTravelPx (gateOpening s)
      <= DamVisualizer.GATE_HEIGHT_PX /\
    DamVisualizer.currentOpeningCm (gateOpening s) ==
      100 * currentGateHeightM (gateOpening s) /\
    DamVisualizer.gateTravelPx (gateOpening s) ==
      currentGateHeightM (gateOpening s) * DamVisualizer.PIXELS_PER_METER.
Proof.
  intros s (Hw & Hg & _) y.
  destruct (visual_gate_scale (gateOpening s)) as (T & C & M).
  assert (W : DamVisualizer.waterHeightPx (waterLevel s) ==
              waterLevel s * DamVisualizer.PIXELS_PER_METER).
  { unfold DamVisualizer.waterHeightPx, DamVisualizer.MAX_LEVEL_DISPLAY,
      MAX_WATER_LEVEL in *.
    destruct (min_cases (waterLevel s) 12) as [[H E] | [H E]]; rewrite E;
      unfold DamVisualizer.PIXELS_PER_METER; lra. }
  subst y. unfold DamVisualizer.waterSurfaceY, DamVisualizer.rulerTickY.
  rewrite W, T, C, M.
  unfold DamVisualizer.UPSTREAM_GROUND_Y, DamVisualizer.PIXELS_PER_METER,
    DamVisualizer.DAM_TOP_Y, DamVisualizer.GATE_HEIGHT_PX,
    DamVisualizer.MAX_GATE_HEIGHT_CM, MAX_WATER_LEVEL in *.
  assert (G : 200 / 100 * 22 == 44) by reflexivity. rewrite G.
  repeat split; lra.
Qed.

Lemma drawing_matches_physics_witness :
  DamVisualizer.currentOpeningCm (gateOpening (systemState sessionApp)) ==
  100 * currentGateHeightM (gateOpening (systemState sessionApp)).
Proof.
  assert (H : inBounds (systemState sessionApp)).
  { unfold inBounds. repeat split; q_eval. }
  destruct (drawing_matches_physics (systemState sessionApp) H)
    as (_ & _ & _ & _ & C & _).
  exact C.
Defined.

(** ** The progress bar of the active order *)

(** For an order with a positive target and nothing negative delivered the
    bar is between 0 and 100 percent wide, and it is full exactly when the
    completion check of the application would complete the order. *)
Theorem progress_bar_full_iff_due :
  forall (o : WateringOrder),
    0 < targetVolume o -> 0 <= deliveredVolume o ->
    0 <= progressWidth o <= 100 /\
    (progressWidth o == 100 <->
       JS.ge (deliveredVolume o) (targetVolume o) = true) /\
    (deliveredVolume o < targetVolume o ->
       progressWidth o == deliveredVolume o / targetVolume o * 100).
Proof.
  intros o T D. unfold progressWidth.
  set (d := deliveredVolume o) in *. set (t := targetVolume o) in *.
  assert (R0 : 0 <= d / t) by (apply Qle_shift_div_l; [exact T | lra]).
  assert (Full : t <= d -> 1 <= d / t).
  { intros H. apply Qle_shift_div_l; [exact T | lra]. }
  assert (Part : d < t -> d / t < 1).
  { intros H. apply Qlt_shift_div_r; [exact T | lra]. }
  rewrite ge_true.
  destruct (min_cases 100 (d / t * 100)) as [[H E] | [H E]]; rewrite E;
    repeat split; intros; lra.
Qed.

Lemma progress_bar_full_iff_due_witness :
  match activeOrder sessionApp with
  | Some o => 0 <= progressWidth o <= 100
  | None => False
  end.
Proof.
  destruct (activeOrder sessionApp) as [o |] eqn:E;
    [| vm_compute in E; discriminate E].
  assert (T : 0 < targetVolume o /\ 0 <= deliveredVolume o).
  { vm_compute in E. injection E as <-. split; q_eval. }
  destruct T as [T D].
  destruct (progress_bar_full_iff_due o T D) as (B & _).
  exact B.
Defined.

(** * After the order *)

Lemma flushEffects_frame now a :
  mode (flushEffects now a) = mode a /\
  config (flushEffects now a) = config a /\
  systemState (flushEffects now a) = systemState a /\
  isSimulating (flushEffects now a) = isSimulating a /\
  holdTimer (flushEffects now a) = holdTimer a.
Proof.
  destruct a as [m i c s ao lo r h]. rewrite flushEffects_mk.
  destruct ao as [o |]; [destruct (JS.ge _ _ && _) |]; repeat split.
Qed.

(** In MANUAL mode the end of an order does not bring the gate back: once a
    tick has seen the order the target is 100, and after the cancellation
    and the flush of the effects the next tick, which sees no order any
    more and books nothing, still leaves the target at 100, where it stays
    until the operator moves it. *)
Theorem manual_gate_stays_open_after_cancel :
  forall (Math_pow : Q -> Q -> Q) (Math_sqrt : Q -> Q) (a : App)
         (random1 random2 : Q) (now1 now2 now3 : Z),
    mode a = MANUAL -> activeOrderRef a <> None ->
    let ticked := tickSimulation Math_pow Math_sqrt random1 now1 a in
    let cancelled := flushEffects now2 (handleCancelOrder ticked) in
    let after := tickSimulation Math_pow Math_sqrt random2 now3 cancelled in
    targetGateOpening (systemState ticked) = 100 /\
    activeOrder cancelled = None /\ activeOrderRef cancelled = None /\
    activeOrder after = None /\
    targetGateOpening (systemState after) = 100.
Proof.
  intros Math_pow Math_sqrt a random1 random2 now1 now2 now3 M R
         ticked cancelled after.
  pose proof (tickSimulation_frame Math_pow Math_sqrt random1 now1 a)
    as (Em & _). cbn zeta in Em. fold ticked in Em.
  assert (T : targetGateOpening (systemState ticked) = 100).
  { unfold ticked. rewrite tickSimulation_systemState, tick_targetGateOpening.
    unfold nextTargetGate. destruct (activeOrderRef a); [reflexivity | congruence]. }
  pose proof (flushEffects_frame now2 (handleCancelOrder ticked))
    as (Fm & _ & Fs & _). fold cancelled in Fm, Fs.
  assert (A : activeOrder cancelled = None /\ activeOrderRef cancelled = None).
  { unfold cancelled. destruct ticked as [m i c s ao lo r h].
    unfold handleCancelOrder, setActiveOrder.
    cbn [mode isSimulating config systemState activeOrder lastCompletedOrder
           activeOrderRef holdTimer].
    rewrite flushEffects_mk. split; reflexivity. }
  destruct A as [A B].
  split; [exact T | split; [exact A | split; [exact B | split]]].
  - unfold after. rewrite tickSimulation_activeOrder, A, B. reflexivity.
  - unfold after. rewrite tickSimulation_systemState, tick_targetGateOpening.
    unfold nextTargetGate. rewrite B, Fm, Fs. cbn [JS.truthy].
    cbn [mode handleCancelOrder setActiveOrder systemState]. rewrite Em, M.
    exact T.
Qed.

Lemma manual_gate_stays_open_after_cancel_witness :
  targetGateOpening
    (systemState
       (tickSimulation approx_pow approx_sqrt 0.5 1600
          (flushEffects 1500
             (handleCancelOrder
                (tickSimulation approx_pow approx_sqrt 0.5 1400
                   (setMode MANUAL sessionApp)))))) = 100.
Proof.
  assert (R : activeOrderRef (setMode MANUAL sessionApp) <> None)
    by (vm_compute; discriminate).
  destruct (manual_gate_stays_open_after_cancel approx_pow approx_sqrt
              (setMode MANUAL sessionApp) 0.5 0.5 1400%Z 1500%Z 1600%Z eq_refl R)
    as (_ & _ & _ & _ & H).
  exact H.
Defined.
